(** * llm.datasets.sharded: index partitioning of sharded datasets

    A shallow embedding of [src/llm/datasets/sharded.py]:
    [DistributedShardedDataset] (shard range computation, the rank-local to
    global to shard index translation, the one-shard cache) and
    [ResumableSequentialSampler].

    Python integers are [Z]; [dict] is [gmap]; a method that reads or writes
    [self] is a computation in a state-and-exception monad over the object. *)

From stdpp Require Import base numbers option list gmap strings sorting.

Local Open Scope Z_scope.

(** ** Exceptions and the state-and-exception monad *)

Inductive Exn : Type :=
  | ValueError
  | IndexError
  | AssertionError
  | KeyError
  | ZeroDivisionError.

Inductive Result (A : Type) : Type :=
  | Ok (a : A)
  | Raise (e : Exn).
Arguments Ok {A} a.
Arguments Raise {A} e.

Global Instance Exn_eq_dec : EqDecision Exn.
Proof. solve_decision. Defined.

(** A computation over a store [S]: the store survives an exception, as
    the attributes of a Python object do. *)
Definition M (S A : Type) : Type := S → Result A * S.

Definition ret {S A} (a : A) : M S A := λ s, (Ok a, s).
Definition raise {S A} (e : Exn) : M S A := λ s, (Raise e, s).
Definition bind {S A B} (m : M S A) (f : A → M S B) : M S B :=
  λ s, match m s with
       | (Ok a, s') => f a s'
       | (Raise e, s') => (Raise e, s')
       end.
Definition pure_res {S A} (r : Result A) : M S A := λ s, (r, s).

Global Instance M_ret {S} : MRet (M S) := λ A, ret.
Global Instance M_bind {S} : MBind (M S) := λ A B f m, bind m f.

(** ** Python integer and sequence primitives *)

(** [a // b] and [a % b]: floor division, remainder with the sign of the
    divisor; both raise on a zero divisor. *)
Definition py_floordiv (a b : Z) : Result Z :=
  if b =? 0 then Raise ZeroDivisionError else Ok (a `div` b).
Definition py_mod (a b : Z) : Result Z :=
  if b =? 0 then Raise ZeroDivisionError else Ok (a `mod` b).

(** [l[i]] on a sequence: negative indices count from the end. *)
Definition py_getitem {A} (l : list A) (i : Z) : Result A :=
  let n := Z.of_nat (length l) in
  let j := if i <? 0 then i + n else i in
  if (0 <=? j) && (j <? n)
  then match l !! Z.to_nat j with Some x => Ok x | None => Raise IndexError end
  else Raise IndexError.

(** [sorted(keys)] on strings: ascending in the lexicographic order of the
    characters. *)
Definition sorted (keys : list string) : list string :=
  merge_sort String.le keys.

(** [d[k]] on a dict. *)
Definition dict_getitem {V} (d : gmap string V) (k : string) : Result V :=
  match d !! k with
  | Some v => Ok v
  | None => Raise KeyError
  end.

Module DistributedShardedDataset.

Section Dataset.
(** A sample and the parameters ([args], [kwargs]) of one shard. *)
Context {Sample Params : Type}.

(** A map-style dataset, as far as this class uses it: its length and
    its items by offset. *)
Definition Dataset : Type := list Sample.

(** The datasets constructed so far, in order, by shard key. *)
Definition Trace : Type := list string.

Record View : Type := mkView {
  dataset_type : Params → Dataset;
  shard_params : gmap string Params;
  rank : Z;
  world_size : Z;
  shuffle : bool;
  shard_keys : list string;
  shard_indices : gmap string (Z * Z);
  total_samples : Z;
  _current_shard_key : option string;
  _current_shard : option Dataset;
}.

(** The object together with the record of constructed datasets. *)
Record Heap : Type := mkHeap {
  self : View;
  loads : Trace;
}.

(** [random.seed(seed); random.shuffle(keys)]: the generator is fixed by
    the seed, so the result is a function of the seed and the list. *)
Context (random_shuffle : Z → list string → list string).

(** Calling the dataset constructor; the call is recorded. *)
Definition construct (dt : Params → Dataset) (shard_key : string)
    (params : Params) : M Trace Dataset :=
  λ tr, (Ok (dt params), tr ++ [shard_key]).

(** [load_shard]: reads [shard_params] and [dataset_type] only, so that
    [__init__] can call it before the remaining fields exist. *)
Definition load_shard (dt : Params → Dataset) (sp : gmap string Params)
    (shard_key : string) : M Trace Dataset :=
  params ← pure_res (dict_getitem sp shard_key);
  construct dt shard_key params.

(** The loop of [__init__] over the ordered keys. *)
Fixpoint index_shards (dt : Params → Dataset) (sp : gmap string Params)
    (keys : list string) (shard_indices : gmap string (Z * Z)) (index : Z)
    : M Trace (gmap string (Z * Z) * Z) :=
  match keys with
  | [] => mret (shard_indices, index)
  | shard_key :: keys' =>
      shard ← load_shard dt sp shard_key;
      let n := Z.of_nat (length shard) in
      index_shards dt sp keys'
        (<[shard_key := (index, index + n)]> shard_indices) (index + n)
  end.

Definition py_assert {S} (b : bool) : M S unit :=
  if b then mret tt else raise AssertionError.

(** The order of the shards: the sorted keys, shuffled on request. *)
Definition order_keys (sp : gmap string Params) (shuffle : bool) (seed : Z)
    : list string :=
  let shard_keys := sorted (elements (dom sp)) in
  if shuffle then random_shuffle seed shard_keys else shard_keys.

Definition __init__ (dt : Params → Dataset) (sp : gmap string Params)
    (rank world_size : Z) (shuffle : bool) (seed : Z) : M Trace View :=
  if negb ((0 <=? rank) && (rank <? world_size)) then raise ValueError else
  if (size sp =? 0)%nat then raise ValueError else
  let shard_keys := order_keys sp shuffle seed in
  '(shard_indices, _) ← index_shards dt sp shard_keys ∅ 0;
  last_shard_key ← pure_res (py_getitem shard_keys (-1));
  last_shard_indices ← pure_res (dict_getitem shard_indices last_shard_key);
  r ← pure_res (py_mod (last_shard_indices.2) world_size);
  let shard_indices :=
    <[last_shard_key := (last_shard_indices.1, last_shard_indices.2 - r)]>
      shard_indices in
  last_shard_indices' ← pure_res (dict_getitem shard_indices last_shard_key);
  let total_samples := last_shard_indices'.2 in
  py_assert (bool_decide (length shard_keys = size shard_indices
                          ∧ size shard_indices = size sp)) ;;
  len ← pure_res (py_floordiv total_samples world_size);
  py_assert (len * world_size =? total_samples) ;;
  mret {| dataset_type := dt; shard_params := sp; rank := rank;
         world_size := world_size; shuffle := shuffle;
         shard_keys := shard_keys; shard_indices := shard_indices;
         total_samples := total_samples;
         _current_shard_key := None; _current_shard := None |}.

(** Lifting a computation on the trace to the heap. *)
Definition with_loads {A} (m : M Trace A) : M Heap A :=
  λ h, let '(r, tr) := m (loads h) in (r, {| self := self h; loads := tr |}).

Definition get_self : M Heap View := λ h, (Ok (self h), h).

(** [self._current_shard_key = k]. *)
Definition with_current_shard_key (v : View) (k : string) : View :=
  {| dataset_type := dataset_type v; shard_params := shard_params v;
     rank := rank v; world_size := world_size v; shuffle := shuffle v;
     shard_keys := shard_keys v; shard_indices := shard_indices v;
     total_samples := total_samples v;
     _current_shard_key := Some k; _current_shard := _current_shard v |}.

(** [self._current_shard = d]. *)
Definition with_current_shard (v : View) (d : Dataset) : View :=
  {| dataset_type := dataset_type v; shard_params := shard_params v;
     rank := rank v; world_size := world_size v; shuffle := shuffle v;
     shard_keys := shard_keys v; shard_indices := shard_indices v;
     total_samples := total_samples v;
     _current_shard_key := _current_shard_key v; _current_shard := Some d |}.

Definition set_current_shard_key (k : string) : M Heap unit :=
  λ h, (Ok tt, {| self := with_current_shard_key (self h) k;
                  loads := loads h |}).

Definition set_current_shard (d : Dataset) : M Heap unit :=
  λ h, (Ok tt, {| self := with_current_shard (self h) d; loads := loads h |}).

(** [len(self)] is taken to be the value [__len__] returns; on a view
    returned by [__init__] it is not negative. *)
Definition __len__ : M Heap Z :=
  v ← get_self;
  pure_res (py_floordiv (total_samples v) (world_size v)).

Definition rank_index_to_global_index (rank_index : Z) : M Heap Z :=
  len ← __len__;
  v ← get_self;
  let rank_start_index := len * rank v in
  mret (rank_start_index + rank_index).

(** The [for] loop of [rank_index_to_shard_index]; running off the end of
    the keys is the [raise AssertionError] after the loop. *)
Fixpoint scan_shards (shard_indices : gmap string (Z * Z))
    (keys : list string) (global_index : Z) : Result (string * Z) :=
  match keys with
  | [] => Raise AssertionError
  | shard_key :: keys' =>
      match dict_getitem shard_indices shard_key with
      | Raise e => Raise e
      | Ok si =>
          if (si.1 <=? global_index) && (global_index <? si.2)
          then Ok (shard_key, global_index - si.1)
          else scan_shards shard_indices keys' global_index
      end
  end.

Definition rank_index_to_shard_index (rank_index : Z) : M Heap (string * Z) :=
  global_index ← rank_index_to_global_index rank_index;
  v ← get_self;
  pure_res (scan_shards (shard_indices v) (shard_keys v) global_index).

Definition __getitem__ (rank_index : Z) : M Heap Sample :=
  len ← __len__;
  if rank_index >=? len then raise IndexError else
  '(shard_key, shard_index) ← rank_index_to_shard_index rank_index;
  v ← get_self;
  (if bool_decide (_current_shard_key v = None
                   ∨ _current_shard_key v ≠ Some shard_key)
   then set_current_shard_key shard_key ;;
        v ← get_self;
        shard ← with_loads
                  (load_shard (dataset_type v) (shard_params v) shard_key);
        set_current_shard shard
   else mret tt) ;;
  v ← get_self;
  match _current_shard v with
  | None => raise AssertionError
  | Some current_shard => pure_res (py_getitem current_shard shard_index)
  end.

(** *** Notions used to state the properties of the layout *)

(** [len(shard)] for the shard of a key. *)
Definition shard_len (dt : Params → Dataset) (sp : gmap string Params)
    (k : string) : Z :=
  match sp !! k with
  | Some params => Z.of_nat (length (dt params))
  | None => 0
  end.

Definition sum_lens (len : string → Z) (keys : list string) : Z :=
  foldr (λ k acc, len k + acc) 0 keys.

(** [chain len m keys a b]: in [m], the ranges of [keys], in this order,
    have the lengths [len] and lie end to start from [a] to [b]. *)
Inductive chain (len : string → Z) (m : gmap string (Z * Z))
    : list string → Z → Z → Prop :=
  | chain_nil a : chain len m [] a a
  | chain_cons k keys a b :
      m !! k = Some (a, a + len k) →
      chain len m keys (a + len k) b →
      chain len m (k :: keys) a b.

(** The ranges of a view in the order of its keys. *)
Definition ranges (v : View) : list (Z * Z) :=
  omap (λ k, shard_indices v !! k) (shard_keys v).

(** Membership of a global index in a half-open range. *)
Definition in_range (g : Z) (r : Z * Z) : Prop := r.1 ≤ g < r.2.

Global Instance in_range_dec g r : Decision (in_range g r).
Proof. unfold in_range. apply _. Defined.

(** The cache cell holds the dataset of its key, if it holds one. *)
Definition cache_ok (v : View) : Prop :=
  ∀ k, _current_shard_key v = Some k →
    ∃ params, shard_params v !! k = Some params
              ∧ _current_shard v = Some (dataset_type v params).

(** What [__init__] establishes and [__getitem__] keeps. *)
Record wf_view (v : View) : Prop := mk_wf_view {
  wf_rank : 0 ≤ rank v < world_size v;
  wf_keys : shard_keys v ≡ₚ elements (dom (shard_params v));
  wf_layout :
    ∃ keys last s,
      shard_keys v = keys ++ [last]
      ∧ chain (shard_len (dataset_type v) (shard_params v))
              (shard_indices v) keys 0 s
      ∧ shard_indices v !! last = Some (s, total_samples v)
      ∧ let raw := s + shard_len (dataset_type v) (shard_params v) last in
        total_samples v = raw - raw `mod` world_size v;
  wf_cache : cache_ok v;
}.

(** Two views that differ at most in the cache cell. *)
Definition same_index (v v' : View) : Prop :=
  dataset_type v = dataset_type v' ∧ shard_params v = shard_params v'
  ∧ rank v = rank v' ∧ world_size v = world_size v'
  ∧ shuffle v = shuffle v' ∧ shard_keys v = shard_keys v'
  ∧ shard_indices v = shard_indices v'
  ∧ total_samples v = total_samples v'.

(** The sample stored at a global index: the item of the shard whose
    range holds the index. *)
Definition sample_at (v : View) (global_index : Z) : Result Sample :=
  match scan_shards (shard_indices v) (shard_keys v) global_index with
  | Ok (shard_key, shard_index) =>
      match shard_params v !! shard_key with
      | Some params => py_getitem (dataset_type v params) shard_index
      | None => Raise KeyError
      end
  | Raise e => Raise e
  end.

(** The heaps a view goes through: any trace at the start, then any
    calls of [__getitem__] (the other methods leave the heap as it is). *)
Inductive reachable (v0 : View) : Heap → Prop :=
  | reach_init tr : reachable v0 {| self := v0; loads := tr |}
  | reach_getitem h rank_index :
      reachable v0 h → reachable v0 (__getitem__ rank_index h).2.

(** The heap after [__getitem__] has resolved [shard_key]: untouched when
    the cache cell holds that shard; else the cell takes the key, the
    shard is constructed and takes the cell too. *)
Definition heap_after (h : Heap) (shard_key : string) : Heap :=
  if decide (_current_shard_key (self h) = Some shard_key) then h
  else match shard_params (self h) !! shard_key with
       | Some params =>
           {| self := with_current_shard
                        (with_current_shard_key (self h) shard_key)
                        (dataset_type (self h) params);
              loads := loads h ++ [shard_key] |}
       | None =>
           {| self := with_current_shard_key (self h) shard_key;
              loads := loads h |}
       end.

(** The start of the range of a key. *)
Definition range_start (v : View) (k : string) : Z :=
  match shard_indices v !! k with
  | Some r => r.1
  | None => 0
  end.

(** [rank_index] resolves to the shard [k] on the view [v]. *)
Definition resolves (v : View) (rank_index : Z) (k : string) : Prop :=
  ∃ off,
    scan_shards (shard_indices v) (shard_keys v)
      (total_samples v `div` world_size v * rank v + rank_index)
    = Ok (k, off).

(** The shards constructed while the keys [ks] are resolved in turn,
    from a cache cell holding [cur]: a key is constructed when it is not
    the one in the cell. *)
Fixpoint pass_loads (cur : option string) (ks : list string) : list string :=
  match ks with
  | [] => []
  | k :: ks' =>
      if decide (cur = Some k) then pass_loads cur ks'
      else k :: pass_loads (Some k) ks'
  end.

(** A pass: [__getitem__] for each index of a list in turn, stopping at
    the first exception. *)
Fixpoint get_all (rank_indices : list Z) : M Heap (list Sample) :=
  match rank_indices with
  | [] => mret []
  | i :: rest =>
      x ← __getitem__ i;
      xs ← get_all rest;
      mret (x :: xs)
  end.

End Dataset.

End DistributedShardedDataset.

Module ResumableSequentialSampler.

Record Sampler : Type := mkSampler {
  data_length : Z;
  start_index : Z;
  index : Z;
}.

(** [data_source] is only asked for its length. *)
Definition __init__ {A} (data_source : list A) (start_index : Z) : Sampler :=
  {| data_length := Z.of_nat (length data_source);
     start_index := start_index;
     index := start_index |}.

Definition __len__ (s : Sampler) : Z := data_length s - start_index s.

(** The generator returned by [__iter__]: not yet started, suspended at
    the [yield], or returned. *)
Inductive Frame : Type :=
  | Created
  | Suspended
  | Finished.

Definition incr_index (s : Sampler) : Sampler :=
  {| data_length := data_length s; start_index := start_index s;
     index := index s + 1 |}.

(** The loop test and the [yield]: [Some i] is a value yielded, [None] is
    [StopIteration]. *)
Definition loop_head (s : Sampler) : option Z * Frame * Sampler :=
  if index s <? data_length s
  then (Some (index s), Suspended, s)
  else (None, Finished, s).

(** [next(g)]: resuming after the [yield] first runs [self.index += 1]. *)
Definition next (f : Frame) (s : Sampler) : option Z * Frame * Sampler :=
  match f with
  | Created => loop_head s
  | Suspended => loop_head (incr_index s)
  | Finished => (None, Finished, s)
  end.

(** [list(g)]: calling [next] until [StopIteration]; [None] when the fuel
    runs out first. *)
Fixpoint drain (fuel : nat) (f : Frame) (s : Sampler)
    : option (list Z * Sampler) :=
  match fuel with
  | O => None
  | S fuel' =>
      match next f s with
      | (None, _, s') => Some ([], s')
      | (Some i, f', s') =>
          match drain fuel' f' s' with
          | Some (l, s'') => Some (i :: l, s'')
          | None => None
          end
      end
  end.

(** [n] calls of [next], as a consumer that stops early makes them. *)
Fixpoint consume (n : nat) (f : Frame) (s : Sampler)
    : list Z * Frame * Sampler :=
  match n with
  | O => ([], f, s)
  | S n' =>
      match next f s with
      | (None, f', s') => ([], f', s')
      | (Some i, f', s') =>
          let '(l, f'', s'') := consume n' f' s' in (i :: l, f'', s'')
      end
  end.

(** The value the next call of [next] yields, if it yields one. *)
Definition pending (f : Frame) (s : Sampler) : Z :=
  match f with
  | Created => index s
  | Suspended => index s + 1
  | Finished => data_length s
  end.

(** The sampler once its generator has returned. *)
Definition exhausted (s : Sampler) : Sampler :=
  {| data_length := data_length s; start_index := start_index s;
     index := data_length s |}.

End ResumableSequentialSampler.

(** * llm.trainers.gpt.data: grouping tokenized texts into blocks *)

Module GptData.

Inductive Error : Type :=
  | StopIteration
  | ZeroDivisionError
  | KeyError
  | ValueError.

Inductive Outcome (A : Type) : Type :=
  | Return (a : A)
  | Raises (e : Error).
Arguments Return {A} a.
Arguments Raises {A} e.

(** Sequencing: an exception ends the computation. *)
Definition and_then {A B} (o : Outcome A) (f : A → Outcome B) : Outcome B :=
  match o with
  | Return a => f a
  | Raises e => Raises e
  end.

Notation "'do' x <- m ; k" := (and_then m (λ x, k))
  (at level 10, x name, m at level 100, k at level 200).

(** A [dict]: its items in insertion order, with distinct keys. *)
Definition Dict (V : Type) : Type := list (string * V).

Definition dict_keys {V} (d : Dict V) : list string := d.*1.

(** [d[k]]. *)
Fixpoint dict_get {V} (d : Dict V) (k : string) : Outcome V :=
  match d with
  | [] => Raises KeyError
  | (k', v) :: d' => if decide (k' = k) then Return v else dict_get d' k
  end.

(** [d[k] = v]: a key of the dict keeps its place, a new key goes last. *)
Fixpoint dict_set {V} (d : Dict V) (k : string) (v : V) : Dict V :=
  match d with
  | [] => [(k, v)]
  | (k', v') :: d' =>
      if decide (k' = k) then (k', v) :: d' else (k', v') :: dict_set d' k v
  end.

(** [next(iter(xs))]. *)
Definition next_iter {A} (xs : list A) : Outcome A :=
  match xs with
  | [] => Raises StopIteration
  | x :: _ => Return x
  end.

(** [a // b]. *)
Definition floordiv (a b : Z) : Outcome Z :=
  if b =? 0 then Raises ZeroDivisionError else Return (a `div` b).

(** [range(start, stop, step)] as a list. *)
Definition py_range (start stop step : Z) : Outcome (list Z) :=
  if step =? 0 then Raises ValueError
  else
    let count :=
      if 0 <? step then (stop - start + step - 1) `div` step
      else (start - stop - step - 1) `div` (- step) in
    Return ((λ j, start + step * j) <$> seqZ 0 count).

(** A bound of a slice on a sequence of length [n]: a negative bound counts
    from the end, and every bound is cut to [[0, n]]. *)
Definition slice_index (n i : Z) : Z :=
  if i <? 0 then Z.max 0 (i + n) else Z.min i n.

(** [t[i:j]]. *)
Definition py_slice {A} (t : list A) (i j : Z) : list A :=
  let n := Z.of_nat (length t) in
  let a := slice_index n i in
  let b := slice_index n j in
  take (Z.to_nat (b - a)) (drop (Z.to_nat a) t).

(** The character ['.']. *)
Definition dot : Ascii.ascii := Ascii.ascii_of_nat 46.

(** [s.split(sep)] for a separator of one character. *)
Fixpoint str_split (sep : Ascii.ascii) (s : string) : list string :=
  match s with
  | EmptyString => [EmptyString]
  | String c s' =>
      if decide (c = sep) then EmptyString :: str_split sep s'
      else match str_split sep s' with
           | h :: t => String c h :: t
           | [] => [String c EmptyString]
           end
  end.

(** Whether a character occurs in a string. *)
Fixpoint occurs (c : Ascii.ascii) (s : string) : bool :=
  match s with
  | EmptyString => false
  | String c' s' => if decide (c' = c) then true else occurs c s'
  end.

Section GetDatasets.
(** A split of a dataset, and the type of [validation_split_percentage]
    with its rendering in an f-string. *)
Context {DS Pct : Type}.
Context (render : Pct → string).

(** The arguments of a call of [datasets.load_dataset]: the path, the
    configuration name, and the keyword arguments that the caller
    passes. *)
Record LoadCall : Type := mkLoadCall {
  path : string;
  name : option string;
  data_files : option (Dict string);
  split : option string;
  keep_linebreaks_arg : option bool;
}.

(** [datasets.load_dataset]: it returns a dict of splits when no split is
    asked for, and one split when one is. *)
Context (load_splits : LoadCall → Dict DS).
Context (load_split : LoadCall → DS).

(** The second half of both branches: a missing ["validation"] split is
    cut from the ["train"] split. *)
Definition add_validation_split (raw_datasets : Dict DS) (call : LoadCall)
    (validation_split_percentage : Pct) : Dict DS * list LoadCall :=
  if decide ("validation" ∈ dict_keys raw_datasets) then (raw_datasets, [])
  else
    let head :=
      {| path := path call; name := name call;
         data_files := data_files call;
         split := Some ("train[:"
                        +:+ (render validation_split_percentage +:+ "%]"));
         keep_linebreaks_arg := keep_linebreaks_arg call |} in
    let raw_datasets := dict_set raw_datasets "validation" (load_split head) in
    let tail :=
      {| path := path call; name := name call;
         data_files := data_files call;
         split := Some ("train["
                        +:+ (render validation_split_percentage +:+ "%:]"));
         keep_linebreaks_arg := keep_linebreaks_arg call |} in
    let raw_datasets := dict_set raw_datasets "train" (load_split tail) in
    (raw_datasets, [head; tail]).

(** [get_datasets]; the calls of [load_dataset] are returned with the
    result, in order. *)
Definition get_datasets (dataset_name dataset_config_name : option string)
    (validation_split_percentage : Pct)
    (train_file validation_file : option string) (keep_linebreaks : bool)
    : Outcome (Dict DS) * list LoadCall :=
  match dataset_name with
  | Some dataset_name =>
      let call :=
        {| path := dataset_name; name := dataset_config_name;
           data_files := None; split := None;
           keep_linebreaks_arg := None |} in
      let raw_datasets := load_splits call in
      let '(raw_datasets, calls) :=
        add_validation_split raw_datasets call validation_split_percentage in
      (Return raw_datasets, call :: calls)
  | None =>
      match train_file with
      | Some train_file =>
          let data_files : Dict string := [("train", train_file)] in
          let data_files :=
            match validation_file with
            | Some validation_file =>
                dict_set data_files "validation" validation_file
            | None => data_files
            end in
          let extension :=
            default EmptyString (last (str_split dot train_file)) in
          let '(extension, dataset_args) :=
            if decide (extension = "txt") then ("text", Some keep_linebreaks)
            else (extension, None) in
          let call :=
            {| path := extension; name := None;
               data_files := Some data_files; split := None;
               keep_linebreaks_arg := dataset_args |} in
          let raw_datasets := load_splits call in
          let '(raw_datasets, calls) :=
            add_validation_split raw_datasets call
              validation_split_percentage in
          (Return raw_datasets, call :: calls)
      | None => (Raises ValueError, [])
      end
  end.

End GetDatasets.

Section GroupTexts.
Context {T : Type}.

(** [[t[i : i + block_size] for i in range(0, total_length, block_size)]]. *)
Definition blocks_of (t : list T) (total_length block_size : Z)
    : Outcome (list (list T)) :=
  do starts <- py_range 0 total_length block_size;
  Return ((λ i, py_slice t i (i + block_size)) <$> starts).

(** The comprehension over [concatenated_examples.items()]. *)
Fixpoint split_columns (items : Dict (list T)) (total_length block_size : Z)
    : Outcome (Dict (list (list T))) :=
  match items with
  | [] => Return []
  | (k, t) :: items' =>
      do c <- blocks_of t total_length block_size;
      do rest <- split_columns items' total_length block_size;
      Return ((k, c) :: rest)
  end.

Definition group_texts (examples : Dict (list (list T))) (block_size : Z)
    : Outcome (Dict (list (list T))) :=
  let concatenated_examples : Dict (list T) :=
    (λ kv, (kv.1, concat kv.2)) <$> examples in
  do k0 <- next_iter (dict_keys examples);
  do t0 <- dict_get concatenated_examples k0;
  let total_length := Z.of_nat (length t0) in
  do q <- floordiv total_length block_size;
  let total_length := q * block_size in
  do result <- split_columns concatenated_examples total_length block_size;
  do labels <- dict_get result "input_ids";
  Return (dict_set result "labels" labels).

(** The first [q] blocks of [b] items of [t]. *)
Definition blocks (b q : nat) (t : list T) : list (list T) :=
  (λ j, take b (drop (j * b) t)) <$> seq 0 q.

End GroupTexts.

(** The choice of the block size in [preprocess_datasets]; the warnings
    logged are returned with it. *)
Inductive Warning : Type :=
  | ModelMaxLengthAboveDefault
  | BlockSizeAboveModelMaxLength (block_size model_max_length : Z).

Definition choose_block_size (block_size : option Z) (model_max_length : Z)
    : Z * list Warning :=
  match block_size with
  | None =>
      let block_size := model_max_length in
      let log :=
        if block_size >? 1024 then [ModelMaxLengthAboveDefault] else [] in
      let block_size := 1024 in
      (block_size, log)
  | Some block_size =>
      let log :=
        if block_size >? model_max_length
        then [BlockSizeAboveModelMaxLength block_size model_max_length]
        else [] in
      let block_size := Z.min block_size model_max_length in
      (block_size, log)
  end.

End GptData.

(** * Concrete batches and loaders *)

Module GptExamples.
Import GptData.

(** A batch of three texts with two columns. *)
Definition ex_batch : Dict (list (list Z)) :=
  [("input_ids", [[1; 2; 3]; [4; 5]; [6; 7; 8; 9]]);
   ("attention_mask", [[1; 1; 1]; [1; 1]; [1; 1; 1; 1]])].

(** The result of [group_texts] on [ex_batch] with blocks of 4. *)
Definition ex_grouped : Dict (list (list Z)) :=
  [("input_ids", [[1; 2; 3; 4]; [5; 6; 7; 8]]);
   ("attention_mask", [[1; 1; 1; 1]; [1; 1; 1; 1]]);
   ("labels", [[1; 2; 3; 4]; [5; 6; 7; 8]])].

(** A loader whose datasets have a ["train"] split only; a split is named
    by the path and the split asked for. *)
Definition ex_load_splits (c : @LoadCall) : Dict string :=
  [("train", path c)].
Definition ex_load_split (c : @LoadCall) : string :=
  path c +:+ default "" (split c).

End GptExamples.

(** * Concrete registries

    Shards of integers: the parameters of a shard are its first sample and
    its length. *)

Module Examples.
Import DistributedShardedDataset.

Definition ex_dataset (p : Z * nat) : list Z := seqZ p.1 (Z.of_nat p.2).

(** A stand-in for [random.shuffle]: reverses on even seeds. *)
Definition ex_shuffle (seed : Z) (keys : list string) : list string :=
  if Z.even seed then reverse keys else keys.

(** Three shards of 10, 10 and 7 samples. *)
Definition ex_params : gmap string (Z * nat) :=
  <["a" := (0, 10%nat)]> (<["b" := (100, 10%nat)]> (<["c" := (200, 7%nat)]> ∅)).

(** Two shards of 2 and 1 samples. *)
Definition short_params : gmap string (Z * nat) :=
  <["a" := (0, 2%nat)]> (<["b" := (100, 1%nat)]> ∅).

(** The view of rank [r] of 4 over [ex_params], as [__init__] returns it. *)
Definition ex_view (r : Z) : @View Z (Z * nat) :=
  {| dataset_type := ex_dataset; shard_params := ex_params;
     rank := r; world_size := 4; shuffle := false;
     shard_keys := ["a"; "b"; "c"];
     shard_indices :=
       <["c" := (20, 24)]> (<["c" := (20, 27)]> (<["b" := (10, 20)]>
         (<["a" := (0, 10)]> ∅)));
     total_samples := 24;
     _current_shard_key := None; _current_shard := None |}.

Definition ex_heap (r : Z) : @Heap Z (Z * nat) :=
  {| self := ex_view r; loads := ["a"; "b"; "c"] |}.

(** The view of rank 0 of 4 over [short_params]. *)
Definition short_view : @View Z (Z * nat) :=
  {| dataset_type := ex_dataset; shard_params := short_params;
     rank := 0; world_size := 4; shuffle := false;
     shard_keys := ["a"; "b"];
     shard_indices := <["b" := (2, 0)]> (<["b" := (2, 3)]> (<["a" := (0, 2)]> ∅));
     total_samples := 0;
     _current_shard_key := None; _current_shard := None |}.

End Examples.

(** * Properties of [DistributedShardedDataset] *)

Section ShardedProofs.
Import DistributedShardedDataset.
Context {Sample Params : Type}.
Context (random_shuffle : Z → list string → list string).

  (** [random.shuffle] permutes its argument. *)
Hypothesis random_shuffle_perm :
    ∀ seed keys, random_shuffle seed keys ≡ₚ keys.

Abbreviation View := (@View Sample Params).
Abbreviation Heap := (@Heap Sample Params).
Abbreviation Dataset := (@Dataset Sample).

Implicit Types (v : View) (h : Heap) (m : gmap string (Z * Z)).
Implicit Types (keys : list string) (k : string) (g : Z).

  (** ** Chains of ranges *)

Lemma shard_len_nonneg (dt : Params → Dataset) sp k : 0 ≤ shard_len dt sp k.
Proof. unfold shard_len. destruct (sp !! k); lia. Qed.

Section Chain.
Context (len : string → Z) (len_nonneg : ∀ k, 0 ≤ len k).

Lemma chain_end m keys a b :
      chain len m keys a b → b = a + sum_lens len keys.
Proof.
      induction 1 as [a|k keys a b Hk _ IH]; simpl; [lia|].
      rewrite IH. lia.
Qed.

Lemma chain_le m keys a b : chain len m keys a b → a ≤ b.
Proof.
      induction 1 as [a|k keys a b Hk _ IH]; [lia|].
      pose proof (len_nonneg k). lia.
Qed.

Lemma chain_ext m m' keys a b :
      (∀ k, k ∈ keys → m' !! k = m !! k) →
      chain len m keys a b → chain len m' keys a b.
Proof.
      intros Hext Hc. induction Hc as [a|k keys a b Hk _ IH]; [constructor|].
      constructor.
      - rewrite Hext; [done|]. apply list_elem_of_here.
      - apply IH. intros k' Hk'. apply Hext. by apply list_elem_of_further.
Qed.

Lemma chain_snoc m keys k a b :
      chain len m keys a b → m !! k = Some (b, b + len k) →
      chain len m (keys ++ [k]) a (b + len k).
Proof.
      induction 1 as [a|k' keys a b Hk _ IH]; intros Hl; simpl.
      - constructor; [done|constructor].
      - constructor; [done|]. by apply IH.
Qed.

Lemma chain_snoc_inv m keys k a b :
      chain len m (keys ++ [k]) a b →
      ∃ s, chain len m keys a s ∧ m !! k = Some (s, s + len k)
           ∧ b = s + len k.
Proof.
      revert a. induction keys as [|k' keys IH]; intros a Hc; simpl in Hc.
      - inversion Hc as [|? ? ? ? Hk Hrest]; subst.
        inversion Hrest; subst. exists a. split; [constructor|done].
      - inversion Hc as [|? ? ? ? Hk Hrest]; subst.
        destruct (IH _ Hrest) as (s & Hs & Hl & ->).
        exists s. split; [by constructor|done].
Qed.

    (** Every range of a chain lies between its two ends. *)
Lemma chain_bounds m keys a b k r :
      chain len m keys a b → k ∈ keys → m !! k = Some r →
      a ≤ r.1 ∧ r.1 ≤ r.2 ∧ r.2 ≤ b ∧ r.2 = r.1 + len k.
Proof.
      induction 1 as [a|k' keys a b Hk Hrest IH]; intros Hin Hr.
      - by apply elem_of_nil in Hin.
      - pose proof (len_nonneg k'). pose proof (chain_le _ _ _ _ Hrest).
        apply elem_of_cons in Hin as [->|Hin].
        + rewrite Hk in Hr. injection Hr as <-. simpl. lia.
        + destruct (IH Hin Hr) as (? & ? & ? & ?). lia.
Qed.

    (** In a chain without repeated keys, an earlier range ends before a
        later one starts. *)
Lemma chain_ordered m keys a b i j k k' r r' :
      chain len m keys a b → NoDup keys →
      keys !! i = Some k → keys !! j = Some k' → (i < j)%nat →
      m !! k = Some r → m !! k' = Some r' → r.2 ≤ r'.1.
Proof.
      intros Hc. revert i j.
      induction Hc as [a|k0 keys a b Hk Hrest IH]; intros i j Hnd Hi Hj Hlt Hr Hr'.
      - by rewrite lookup_nil in Hi.
      - apply NoDup_cons in Hnd as [Hnotin Hnd].
        destruct j as [|j]; [lia|]. simpl in Hj.
        destruct i as [|i]; simpl in Hi.
        + injection Hi as ->. rewrite Hk in Hr. injection Hr as <-. simpl.
          apply list_elem_of_lookup_2 in Hj.
          by destruct (chain_bounds _ _ _ _ _ _ Hrest Hj Hr') as (? & _).
        + apply (IH i j); [done..|lia|done|done].
Qed.
End Chain.

(** ** Running the monad *)

Lemma bind_run {S A B} (c : M S A) (f : A → M S B) s :
  (c ≫= f) s = match c s with
               | (Ok a, s') => f a s'
               | (Raise e, s') => (Raise e, s')
               end.
Proof. reflexivity. Qed.

Lemma bind_ok {S A B} (c : M S A) (f : A → M S B) s a s' :
  c s = (Ok a, s') → (c ≫= f) s = f a s'.
Proof. intros H. by rewrite bind_run, H. Qed.

Lemma py_getitem_last {A} (l : list A) x : py_getitem (l ++ [x]) (-1) = Ok x.
Proof.
  unfold py_getitem. rewrite length_app. simpl.
  change (-1 <? 0) with true. cbv iota.
  replace (-1 + Z.of_nat (length l + 1)%nat) with (Z.of_nat (length l)) by lia.
  rewrite Nat2Z.id.
  rewrite (proj2 (Z.leb_le _ _)), (proj2 (Z.ltb_lt _ _)) by lia.
  simpl. by rewrite list_lookup_middle.
Qed.

Lemma py_getitem_nat {A} (l : list A) (i : Z) x :
  0 ≤ i → l !! Z.to_nat i = Some x → py_getitem l i = Ok x.
Proof.
  intros Hi Hl. unfold py_getitem.
  pose proof (lookup_lt_Some _ _ _ Hl).
  rewrite (proj2 (Z.ltb_ge _ _)) by lia.
  rewrite (proj2 (Z.leb_le _ _)), (proj2 (Z.ltb_lt _ _)) by lia.
  simpl. by rewrite Hl.
Qed.

(** ** The loop of [__init__] *)

Lemma index_shards_run (dt : Params → Dataset) sp keys m index tr :
  NoDup keys →
  (∀ k, k ∈ keys → is_Some (sp !! k)) →
  (∀ k, k ∈ keys → m !! k = None) →
  ∃ m',
    index_shards dt sp keys m index tr
    = (Ok (m', index + sum_lens (shard_len dt sp) keys), tr ++ keys)
    ∧ chain (shard_len dt sp) m' keys index
            (index + sum_lens (shard_len dt sp) keys)
    ∧ (∀ k, k ∉ keys → m' !! k = m !! k)
    ∧ dom m' = dom m ∪ list_to_set keys.
Proof.
  revert m index tr.
  induction keys as [|k keys IH]; intros m index tr Hnd Hsp Hfresh.
  - exists m. simpl. rewrite Z.add_0_r, app_nil_r.
    split_and!; [done|constructor|done|set_solver].
  - apply NoDup_cons in Hnd as [Hk Hnd].
    destruct (Hsp k) as [params Hparams]; [apply list_elem_of_here|].
    assert (Hlen : shard_len dt sp k = Z.of_nat (length (dt params))).
    { unfold shard_len. by rewrite Hparams. }
    destruct (IH (<[k := (index, index + shard_len dt sp k)]> m)
                 (index + shard_len dt sp k) (tr ++ [k]) Hnd)
      as (m' & Hrun & Hchain & Hother & Hdom).
    { intros k' Hk'. apply Hsp. by apply list_elem_of_further. }
    { intros k' Hk'. rewrite lookup_insert_ne by (intros ->; done).
      apply Hfresh. by apply list_elem_of_further. }
    exists m'. simpl.
    replace (index + (shard_len dt sp k + sum_lens (shard_len dt sp) keys))
      with (index + shard_len dt sp k + sum_lens (shard_len dt sp) keys) by lia.
    split_and!.
    + erewrite bind_ok.
      2:{ unfold load_shard. erewrite bind_ok; [reflexivity|].
          unfold pure_res, dict_getitem. by rewrite Hparams. }
      simpl. rewrite <- Hlen, Hrun, <- app_assoc. done.
    + constructor; [|done].
      rewrite Hother by done. apply lookup_insert_eq.
    + intros k' Hk'. apply not_elem_of_cons in Hk' as [Hne Hk'].
      rewrite Hother by done. by rewrite lookup_insert_ne.
    + rewrite Hdom, dom_insert_L. set_solver.
Qed.

(** ** Construction *)

Lemma order_keys_perm (sp : gmap string Params) shuffle seed :
  order_keys random_shuffle sp shuffle seed ≡ₚ elements (dom sp).
Proof.
  unfold order_keys, sorted. destruct shuffle.
  - rewrite random_shuffle_perm. apply merge_sort_Permutation.
  - apply merge_sort_Permutation.
Qed.

Lemma order_keys_NoDup (sp : gmap string Params) shuffle seed :
  NoDup (order_keys random_shuffle sp shuffle seed).
Proof. rewrite order_keys_perm. apply NoDup_elements. Qed.

Lemma order_keys_elem_of (sp : gmap string Params) shuffle seed k :
  k ∈ order_keys random_shuffle sp shuffle seed ↔ is_Some (sp !! k).
Proof. by rewrite order_keys_perm, elem_of_elements, elem_of_dom. Qed.

Lemma order_keys_length (sp : gmap string Params) shuffle seed :
  length (order_keys random_shuffle sp shuffle seed) = size sp.
Proof. rewrite order_keys_perm. by rewrite <- (size_dom (D := gset string)). Qed.

Lemma truncate_divisible (R ws : Z) :
  ws ≠ 0 → (R - R `mod` ws) `div` ws * ws = R - R `mod` ws.
Proof.
  intros Hws. pose proof (Z.div_mod R ws Hws) as Hdm.
  replace (R - R `mod` ws) with (R `div` ws * ws) by lia.
  by rewrite Z.div_mul.
Qed.

(** A valid call of [__init__] returns: the loop records a chain over
    the ordered keys and only the last range is rewritten. *)
Lemma init_run (dt : Params → Dataset) sp rank ws shuffle seed tr :
  0 ≤ rank < ws → sp ≠ ∅ →
  let keys := order_keys random_shuffle sp shuffle seed in
  let R := sum_lens (shard_len dt sp) keys in
  ∃ raw keys0 last s,
    keys = keys0 ++ [last]
    ∧ index_shards dt sp keys ∅ 0 tr = (Ok (raw, R), tr ++ keys)
    ∧ chain (shard_len dt sp) raw keys 0 R
    ∧ chain (shard_len dt sp) raw keys0 0 s
    ∧ raw !! last = Some (s, R)
    ∧ R = s + shard_len dt sp last
    ∧ __init__ random_shuffle dt sp rank ws shuffle seed tr
      = (Ok {| dataset_type := dt; shard_params := sp; rank := rank;
               world_size := ws; shuffle := shuffle; shard_keys := keys;
               shard_indices := <[last := (s, R - R `mod` ws)]> raw;
               total_samples := R - R `mod` ws;
               _current_shard_key := None; _current_shard := None |},
         tr ++ keys).
Proof.
  intros Hrank Hne keys R.
  destruct (index_shards_run dt sp keys ∅ 0 tr)
    as (raw & Hrun & Hchain & Hother & Hdom).
  { apply order_keys_NoDup. }
  { intros k Hk. by apply (order_keys_elem_of sp shuffle seed). }
  { intros k _. apply lookup_empty. }
  rewrite Z.add_0_l in Hrun, Hchain. fold R in Hrun, Hchain.
  assert (Hlen : length keys = size sp) by apply order_keys_length.
  assert (Hsize : size sp ≠ 0%nat) by (by intros ?%map_size_empty_inv).
  destruct (last keys) as [last|] eqn:Hlast.
  2:{ apply last_None in Hlast. rewrite Hlast in Hlen. simpl in Hlen. lia. }
  apply last_Some in Hlast as [keys0 Hkeys].
  rewrite Hkeys in Hchain.
  destruct (chain_snoc_inv _ _ _ _ _ _ Hchain) as (s & Hc0 & Hl & HR).
  rewrite <- Hkeys in Hchain.
  exists raw, keys0, last, s.
  split_and!; [done|done|done|done|by rewrite HR|done|].
  unfold __init__. fold keys.
  rewrite (proj2 (Z.leb_le _ _)), (proj2 (Z.ltb_lt _ _)) by lia. simpl.
  rewrite (proj2 (Nat.eqb_neq _ _)) by done.
  erewrite bind_ok by exact Hrun. simpl.
  erewrite bind_ok.
  2:{ unfold pure_res. rewrite Hkeys, py_getitem_last. reflexivity. }
  erewrite bind_ok.
  2:{ unfold pure_res, dict_getitem. rewrite Hl, <- HR. reflexivity. }
  erewrite bind_ok.
  2:{ unfold pure_res, py_mod. rewrite (proj2 (Z.eqb_neq _ _)) by lia.
      reflexivity. }
  erewrite bind_ok.
  2:{ unfold pure_res, dict_getitem. rewrite lookup_insert_eq. reflexivity. }
  simpl.
  erewrite bind_ok.
  2:{ unfold py_assert. rewrite bool_decide_eq_true_2; [reflexivity|].
      assert (size (<[last:=(s, R - R `mod` ws)]> raw) = size sp) as ->.
      { rewrite <- !(size_dom (D := gset string)).
        rewrite dom_insert_L, Hdom, dom_empty_L.
        f_equal. apply set_eq. intros k.
        rewrite !elem_of_union, elem_of_singleton, elem_of_list_to_set.
        rewrite elem_of_dom, <- (order_keys_elem_of sp shuffle seed k).
        fold keys. rewrite Hkeys, elem_of_app, list_elem_of_singleton.
        set_solver. }
      done. }
  erewrite bind_ok.
  2:{ unfold pure_res, py_floordiv. rewrite (proj2 (Z.eqb_neq _ _)) by lia.
      reflexivity. }
  erewrite bind_ok.
  2:{ unfold py_assert.
      rewrite (proj2 (Z.eqb_eq _ _)) by (apply truncate_divisible; lia).
      reflexivity. }
  by rewrite <- Hkeys.
Qed.

(** ** The scan over the ranges *)

(** Whatever the scan returns is a key of the list whose range holds the
    index, with the offset from the start of that range. *)
Lemma scan_shards_sound m keys g k off :
  scan_shards m keys g = Ok (k, off) →
  k ∈ keys ∧ ∃ r, m !! k = Some r ∧ in_range g r ∧ off = g - r.1.
Proof.
  induction keys as [|k' keys IH]; simpl; [done|].
  unfold dict_getitem. destruct (m !! k') as [r|] eqn:Hr; [|done].
  destruct ((r.1 <=? g) && (g <? r.2)) eqn:Hin.
  - intros [= <- <-]. split; [apply list_elem_of_here|].
    exists r. apply andb_true_iff in Hin as [?%Z.leb_le ?%Z.ltb_lt].
    by unfold in_range.
  - intros H. destruct (IH H) as [? ?]. split; [|done].
    by apply list_elem_of_further.
Qed.

(** The scan returns the first key whose range holds the index. *)
Lemma scan_shards_first m keys g k off i :
  scan_shards m keys g = Ok (k, off) → NoDup keys → keys !! i = Some k →
  ∀ j k' r', (j < i)%nat → keys !! j = Some k' → m !! k' = Some r' →
    ¬ in_range g r'.
Proof.
  revert i. induction keys as [|k0 keys IH]; intros i; simpl; [done|].
  unfold dict_getitem. destruct (m !! k0) as [r|] eqn:Hr; [|done].
  intros Hscan Hnd Hi j k' r' Hlt Hj Hr'.
  apply NoDup_cons in Hnd as [Hnotin Hnd].
  destruct i as [|i]; [lia|]. simpl in Hi.
  destruct ((r.1 <=? g) && (g <? r.2)) eqn:Hin.
  - injection Hscan as <- <-. apply list_elem_of_lookup_2 in Hi. done.
  - destruct j as [|j]; simpl in Hj.
    + injection Hj as <-. rewrite Hr in Hr'. injection Hr' as <-.
      unfold in_range. intros [? ?].
      apply andb_false_iff in Hin as [?%Z.leb_gt|?%Z.ltb_ge]; lia.
    + apply (IH i Hscan Hnd Hi j k' r'); [lia|done..].
Qed.

(** Over a chain followed by more keys, an index inside the chain is found
    in it, and an index at or past its end is looked for in the rest. *)
Lemma scan_shards_chain len m keys rest a b g :
  (∀ k, 0 ≤ len k) → chain len m keys a b → a ≤ g →
  (g < b → ∃ k off, scan_shards m (keys ++ rest) g = Ok (k, off))
  ∧ (b ≤ g → scan_shards m (keys ++ rest) g = scan_shards m rest g).
Proof.
  intros Hlen Hc. induction Hc as [a|k keys a b Hk Hrest IH]; intros Ha.
  - split; [lia|done].
  - simpl. unfold dict_getitem. rewrite Hk. simpl.
    rewrite (proj2 (Z.leb_le _ _)) by done. simpl.
    destruct (g <? a + len k) eqn:Hg.
    + split; [eauto|]. apply Z.ltb_lt in Hg.
      pose proof (chain_le len Hlen _ _ _ _ Hrest). lia.
    + apply Z.ltb_ge in Hg. by apply IH.
Qed.

(** ** Well-formed views *)

Lemma wf_NoDup v : wf_view v → NoDup (shard_keys v).
Proof. intros Hwf. rewrite (wf_keys v Hwf). apply NoDup_elements. Qed.

Lemma wf_params v k :
  wf_view v → k ∈ shard_keys v → is_Some (shard_params v !! k).
Proof.
  intros Hwf. by rewrite (wf_keys v Hwf), elem_of_elements, elem_of_dom.
Qed.

Lemma wf_world_size v : wf_view v → 1 ≤ world_size v.
Proof. intros Hwf. pose proof (wf_rank v Hwf). lia. Qed.

Lemma wf_total_le v keys last s :
  wf_view v →
  let raw := s + shard_len (dataset_type v) (shard_params v) last in
  total_samples v = raw - raw `mod` world_size v →
  total_samples v ≤ raw ∧ total_samples v `mod` world_size v = 0.
Proof.
  intros Hwf raw Htot. pose proof (wf_world_size v Hwf).
  pose proof (Z.mod_pos_bound raw (world_size v)).
  split; [lia|]. rewrite Htot.
  rewrite Zminus_mod_idemp_r, Z.sub_diag. by apply Z.mod_0_l; lia.
Qed.

(** Any in-range global index is found by the scan. *)
Lemma wf_scan_found v g :
  wf_view v → 0 ≤ g < total_samples v →
  ∃ k off, scan_shards (shard_indices v) (shard_keys v) g = Ok (k, off).
Proof.
  intros Hwf Hg.
  destruct (wf_layout v Hwf) as (keys & last & s & Hkeys & Hc & Hl & Htot).
  rewrite Hkeys.
  destruct (scan_shards_chain _ _ _ [last] _ _ g
              (shard_len_nonneg _ _) Hc) as [Hin Hpast]; [lia|].
  destruct (decide (g < s)) as [Hlt|Hge]; [by apply Hin|].
  rewrite Hpast by lia. simpl. unfold dict_getitem. rewrite Hl. simpl.
  rewrite (proj2 (Z.leb_le _ _)), (proj2 (Z.ltb_lt _ _)) by lia.
  simpl. eauto.
Qed.

(** No range is longer than its shard. *)
Lemma wf_range_within v k r :
  wf_view v → k ∈ shard_keys v → shard_indices v !! k = Some r →
  r.2 ≤ r.1 + shard_len (dataset_type v) (shard_params v) k ∧ 0 ≤ r.1.
Proof.
  intros Hwf Hk Hr.
  destruct (wf_layout v Hwf) as (keys & last & s & Hkeys & Hc & Hl & Htot).
  rewrite Hkeys in Hk. apply elem_of_app in Hk as [Hk|Hk].
  - destruct (chain_bounds _ (shard_len_nonneg _ _) _ _ _ _ _ _ Hc Hk Hr)
      as (? & ? & ? & ?). lia.
  - apply list_elem_of_singleton in Hk as ->.
    rewrite Hl in Hr. injection Hr as <-. simpl.
    pose proof (wf_total_le v keys last s Hwf Htot) as [? _].
    pose proof (chain_le _ (shard_len_nonneg _ _) _ _ _ _ Hc). lia.
Qed.

(** Ranges are ordered as their keys are: an earlier range ends before a
    later one starts, and starts no later. *)
Lemma wf_ordered v i j k k' r r' :
  wf_view v →
  shard_keys v !! i = Some k → shard_keys v !! j = Some k' → (i < j)%nat →
  shard_indices v !! k = Some r → shard_indices v !! k' = Some r' →
  r.2 ≤ r'.1 ∧ r.1 ≤ r'.1.
Proof.
  intros Hwf Hi Hj Hlt Hr Hr'. pose proof (wf_NoDup v Hwf) as Hnd.
  destruct (wf_layout v Hwf) as (keys & last & s & Hkeys & Hc & Hl & Htot).
  rewrite Hkeys in Hi, Hj, Hnd.
  apply NoDup_app in Hnd as (Hnd & _ & _).
  assert (Hik : keys !! i = Some k).
  { pose proof (lookup_lt_Some _ _ _ Hj) as Hjl.
    rewrite length_app in Hjl. simpl in Hjl.
    rewrite lookup_app_l in Hi by lia. done. }
  pose proof (list_elem_of_lookup_2 _ _ _ Hik) as Hkin.
  destruct (chain_bounds _ (shard_len_nonneg _ _) _ _ _ _ _ _ Hc Hkin Hr)
    as (? & ? & ? & ?).
  destruct (decide (j < length keys)%nat) as [Hjl|Hjl].
  - rewrite lookup_app_l in Hj by done.
    pose proof (chain_ordered _ (shard_len_nonneg _ _)
                  _ _ _ _ _ _ _ _ _ _ Hc Hnd Hik Hj Hlt Hr Hr').
    lia.
  - rewrite lookup_app_r in Hj by lia.
    apply list_lookup_singleton_Some in Hj as [_ <-].
    rewrite Hl in Hr'. injection Hr' as <-. simpl. lia.
Qed.

(** [__init__] on a valid call returns a well-formed view with an empty
    cache cell, and records one construction per shard. *)
Lemma init_ok (dt : Params → Dataset) sp rank0 ws shuffle0 seed tr :
  0 ≤ rank0 < ws → sp ≠ ∅ →
  ∃ v, __init__ random_shuffle dt sp rank0 ws shuffle0 seed tr
       = (Ok v, tr ++ order_keys random_shuffle sp shuffle0 seed)
     ∧ wf_view v
     ∧ dataset_type v = dt ∧ shard_params v = sp ∧ rank v = rank0
     ∧ world_size v = ws
     ∧ shard_keys v = order_keys random_shuffle sp shuffle0 seed
     ∧ _current_shard_key v = None.
Proof.
  intros Hrank Hne.
  destruct (init_run dt sp rank0 ws shuffle0 seed tr Hrank Hne)
    as (raw & keys0 & last & s & Hkeys & Hrun & Hchain & Hc0 & Hl & HR & Hinit).
  eexists. split; [exact Hinit|].
  split; [|done].
  constructor; simpl.
  - done.
  - apply order_keys_perm.
  - exists keys0, last, s. split_and!.
    + done.
    + eapply chain_ext; [|exact Hc0].
      intros k Hk. apply lookup_insert_ne. intros <-.
      pose proof (order_keys_NoDup sp shuffle0 seed) as Hnd.
      rewrite Hkeys in Hnd. apply NoDup_app in Hnd as (_ & Hnd & _).
      apply (Hnd _ Hk). apply list_elem_of_here.
    + apply lookup_insert_eq.
    + simpl. by rewrite <- HR.
  - intros k. simpl. done.
Qed.

(** [__init__] returns only on a valid call. *)
Lemma init_inv (dt : Params → Dataset) sp rank0 ws shuffle0 seed tr v tr' :
  __init__ random_shuffle dt sp rank0 ws shuffle0 seed tr = (Ok v, tr') →
  0 ≤ rank0 < ws ∧ sp ≠ ∅.
Proof.
  unfold __init__.
  destruct ((0 <=? rank0) && (rank0 <? ws)) eqn:Hr; simpl; [|done].
  destruct (size sp =? 0)%nat eqn:Hs; [done|]. intros _.
  apply andb_true_iff in Hr as [?%Z.leb_le ?%Z.ltb_lt].
  split; [lia|]. intros ->. by rewrite map_size_empty in Hs.
Qed.

(** ** Running the methods *)

Lemma len_run h :
  world_size (self h) ≠ 0 →
  __len__ h = (Ok (total_samples (self h) `div` world_size (self h)), h).
Proof.
  intros Hws. unfold __len__. rewrite bind_run. simpl.
  unfold pure_res, py_floordiv. by rewrite (proj2 (Z.eqb_neq _ _)).
Qed.

Lemma global_index_run h i :
  world_size (self h) ≠ 0 →
  rank_index_to_global_index i h
  = (Ok (total_samples (self h) `div` world_size (self h) * rank (self h) + i),
     h).
Proof.
  intros Hws. unfold rank_index_to_global_index.
  erewrite bind_ok by by apply len_run. by rewrite bind_run.
Qed.

Lemma shard_index_run h i :
  world_size (self h) ≠ 0 →
  rank_index_to_shard_index i h
  = (scan_shards (shard_indices (self h)) (shard_keys (self h))
       (total_samples (self h) `div` world_size (self h) * rank (self h) + i),
     h).
Proof.
  intros Hws. unfold rank_index_to_shard_index.
  erewrite bind_ok by by apply global_index_run. by rewrite bind_run.
Qed.

(** [__getitem__] in closed form: the bound check, then the sample at the
    global index, with the cache cell moved to the resolved shard. *)
Lemma getitem_run h i :
  world_size (self h) ≠ 0 → cache_ok (self h) →
  let v := self h in
  let g := total_samples v `div` world_size v * rank v + i in
  __getitem__ i h =
    if decide (total_samples v `div` world_size v ≤ i)
    then (Raise IndexError, h)
    else match scan_shards (shard_indices v) (shard_keys v) g with
         | Ok (k, _) => (sample_at v g, heap_after h k)
         | Raise e => (Raise e, h)
         end.
Proof.
  intros Hws Hcache v g. unfold __getitem__.
  erewrite bind_ok by by apply len_run.
  fold v. rewrite Z.geb_leb. destruct (decide _) as [Hge|Hlt].
  { by rewrite (proj2 (Z.leb_le _ _)) by lia. }
  rewrite (proj2 (Z.leb_gt _ _)) by lia.
  rewrite bind_run, shard_index_run by done. fold v g.
  unfold sample_at, heap_after. fold v.
  destruct (scan_shards _ _ g) as [[k off]|e]; [|done].
  rewrite bind_run. simpl. fold v.
  destruct (decide (_current_shard_key v = Some k)) as [Hcur|Hcur].
  - destruct (Hcache k Hcur) as (params & Hp & Hshard). fold v in Hp, Hshard.
    rewrite bool_decide_eq_false_2.
    2:{ rewrite Hcur. intros [?|?]; done. }
    rewrite bind_run. simpl. rewrite bind_run. simpl. fold v.
    by rewrite Hshard, Hp.
  - rewrite bool_decide_eq_true_2.
    2:{ destruct (_current_shard_key v); [right; congruence|by left]. }
    rewrite !bind_run. unfold with_loads, load_shard. simpl.
    rewrite !bind_run. unfold pure_res, dict_getitem. simpl. fold v.
    destruct (shard_params v !! k) as [params|] eqn:Hp; simpl; [|done].
    rewrite bind_run. simpl. done.
Qed.

(** ** The state of the view across calls *)

Lemma same_index_refl v : same_index v v.
Proof. by repeat split. Qed.

Lemma same_index_sym v1 v2 : same_index v1 v2 → same_index v2 v1.
Proof. unfold same_index. intros (?&?&?&?&?&?&?&?). by split_and!. Qed.

Lemma same_index_trans v1 v2 v3 :
  same_index v1 v2 → same_index v2 v3 → same_index v1 v3.
Proof.
  unfold same_index. intros (?&?&?&?&?&?&?&?) (?&?&?&?&?&?&?&?).
  split_and!; congruence.
Qed.

Lemma heap_after_wf h k :
  wf_view (self h) → k ∈ shard_keys (self h) →
  wf_view (self (heap_after h k)) ∧ same_index (self h) (self (heap_after h k)).
Proof.
  intros Hwf Hk. unfold heap_after.
  destruct (decide _) as [Hcur|Hcur]; [by split; [|apply same_index_refl]|].
  destruct (wf_params _ k Hwf Hk) as [params Hp]. rewrite Hp.
  simpl. split; [|by repeat split].
  destruct Hwf as [Hrank Hkeys Hlayout Hcache].
  constructor; simpl; [done..|].
  intros k' [= <-]. simpl. eauto.
Qed.

Lemma getitem_wf h i :
  wf_view (self h) →
  wf_view (self (__getitem__ i h).2)
  ∧ same_index (self h) (self (__getitem__ i h).2).
Proof.
  intros Hwf. pose proof (wf_world_size _ Hwf).
  rewrite getitem_run by (lia || apply Hwf). simpl.
  destruct (decide _); [by split; [|apply same_index_refl]|].
  destruct (scan_shards _ _ _) as [[k off]|e] eqn:Hscan;
    [|by split; [|apply same_index_refl]].
  simpl. apply heap_after_wf; [done|].
  by destruct (scan_shards_sound _ _ _ _ _ Hscan).
Qed.

Lemma reachable_wf v0 h :
  wf_view v0 → reachable v0 h → wf_view (self h) ∧ same_index v0 (self h).
Proof.
  intros Hwf. induction 1 as [tr|h i _ [IHwf IHsame]]; simpl.
  - split; [done|apply same_index_refl].
  - destruct (getitem_wf h i IHwf) as [? ?].
    split; [done|]. by eapply same_index_trans.
Qed.

(** ** Rank slices *)

Lemma wf_per_rank v :
  wf_view v →
  total_samples v = total_samples v `div` world_size v * world_size v
  ∧ 0 ≤ total_samples v `div` world_size v.
Proof.
  intros Hwf. pose proof (wf_world_size v Hwf) as Hws.
  destruct (wf_layout v Hwf) as (keys & last & s & Hkeys & Hc & Hl & Htot).
  pose proof (chain_le _ (shard_len_nonneg _ _) _ _ _ _ Hc) as Hs.
  pose proof (shard_len_nonneg (dataset_type v) (shard_params v) last) as Hn.
  simpl in Htot.
  set (raw := s + shard_len (dataset_type v) (shard_params v) last) in *.
  assert (Hraw : 0 ≤ raw) by (unfold raw; lia).
  rewrite Htot. rewrite truncate_divisible by lia. split; [done|].
  apply Z.div_pos; [|lia].
  pose proof (Z.mod_le raw (world_size v)). lia.
Qed.

(** The slice of a rank lies inside [[0, total_samples)]. *)
Lemma wf_slice v i :
  wf_view v →
  let len := total_samples v `div` world_size v in
  0 ≤ len * rank v + i → i < len →
  0 ≤ len * rank v + i < total_samples v.
Proof.
  intros Hwf len Hlo Hhi. destruct (wf_per_rank v Hwf) as [Htot Hlen].
  fold len in Htot, Hlen. pose proof (wf_rank v Hwf). nia.
Qed.

(** At an in-range global index there is a sample: the scan resolves a
    shard and the offset is inside the shard. *)
Lemma sample_at_ok v g :
  wf_view v → 0 ≤ g < total_samples v →
  ∃ k r params x,
    scan_shards (shard_indices v) (shard_keys v) g = Ok (k, g - r.1)
    ∧ k ∈ shard_keys v ∧ shard_indices v !! k = Some r ∧ in_range g r
    ∧ shard_params v !! k = Some params
    ∧ dataset_type v params !! Z.to_nat (g - r.1) = Some x
    ∧ sample_at v g = Ok x.
Proof.
  intros Hwf Hg. destruct (wf_scan_found v g Hwf Hg) as (k & off & Hscan).
  destruct (scan_shards_sound _ _ _ _ _ Hscan) as (Hk & r & Hr & Hin & ->).
  destruct (wf_params v k Hwf Hk) as [params Hp].
  destruct (wf_range_within v k r Hwf Hk Hr) as [Hlen _].
  unfold shard_len in Hlen. rewrite Hp in Hlen. unfold in_range in Hin.
  destruct (lookup_lt_is_Some_2 (dataset_type v params) (Z.to_nat (g - r.1)))
    as [x Hx]; [lia|].
  exists k, r, params, x. split_and!; [done..|].
  unfold sample_at. rewrite Hscan, Hp. apply py_getitem_nat; [lia|done].
Qed.

(** ** Views of the same registry on different ranks *)

Lemma index_shards_trace (dt : Params → Dataset) sp keys m index tr tr' :
  (index_shards dt sp keys m index tr).1
  = (index_shards dt sp keys m index tr').1.
Proof.
  revert m index tr tr'.
  induction keys as [|k keys IH]; intros m index tr tr'; simpl; [done|].
  rewrite !bind_run. unfold load_shard. rewrite !bind_run.
  unfold pure_res, dict_getitem.
  destruct (sp !! k) as [params|]; simpl; [|done]. apply IH.
Qed.

(** The layout does not depend on the rank. *)
Lemma init_layout_same (dt : Params → Dataset) sp ws shuffle0 seed
    r1 r2 tr1 tr2 v1 v2 tr1' tr2' :
  __init__ random_shuffle dt sp r1 ws shuffle0 seed tr1 = (Ok v1, tr1') →
  __init__ random_shuffle dt sp r2 ws shuffle0 seed tr2 = (Ok v2, tr2') →
  dataset_type v1 = dataset_type v2 ∧ shard_params v1 = shard_params v2
  ∧ world_size v1 = world_size v2 ∧ shard_keys v1 = shard_keys v2
  ∧ shard_indices v1 = shard_indices v2
  ∧ total_samples v1 = total_samples v2.
Proof.
  intros H1 H2.
  destruct (init_inv _ _ _ _ _ _ _ _ _ H1) as [Hr1 Hne].
  destruct (init_inv _ _ _ _ _ _ _ _ _ H2) as [Hr2 _].
  destruct (init_run dt sp r1 ws shuffle0 seed tr1 Hr1 Hne)
    as (raw1 & keys1 & last1 & s1 & Hk1 & Hrun1 & _ & _ & Hl1 & _ & Hi1).
  destruct (init_run dt sp r2 ws shuffle0 seed tr2 Hr2 Hne)
    as (raw2 & keys2 & last2 & s2 & Hk2 & Hrun2 & _ & _ & Hl2 & _ & Hi2).
  rewrite H1 in Hi1. rewrite H2 in Hi2.
  injection Hi1 as -> _. injection Hi2 as -> _. simpl.
  pose proof (index_shards_trace dt sp
                (order_keys random_shuffle sp shuffle0 seed) ∅ 0 tr1 tr2)
    as Htr.
  rewrite Hrun1, Hrun2 in Htr. simpl in Htr. injection Htr as ->.
  rewrite Hk1 in Hk2. apply app_inj_tail in Hk2 as [-> ->].
  rewrite Hl1 in Hl2. injection Hl2 as ->. done.
Qed.

Lemma sample_at_same v v' g :
  dataset_type v = dataset_type v' → shard_params v = shard_params v' →
  shard_keys v = shard_keys v' → shard_indices v = shard_indices v' →
  sample_at v g = sample_at v' g.
Proof. unfold sample_at. by intros -> -> -> ->. Qed.

(** [__getitem__] on a well-formed heap at an index of the slice, or
    below it down to global index 0, returns the sample stored at the
    global index. *)
Lemma getitem_sample h i :
  wf_view (self h) →
  let v := self h in
  let len := total_samples v `div` world_size v in
  0 ≤ len * rank v + i → i < len →
  ∃ x, (__getitem__ i h).1 = Ok x ∧ sample_at v (len * rank v + i) = Ok x.
Proof.
  intros Hwf v len Hlo Hhi. pose proof (wf_world_size _ Hwf).
  pose proof (wf_slice v i Hwf Hlo Hhi) as Hg.
  destruct (sample_at_ok v _ Hwf Hg)
    as (k & r & params & x & Hscan & _ & _ & _ & _ & _ & Hx).
  exists x. split; [|done].
  rewrite getitem_run by (lia || apply Hwf). cbv zeta.
  subst len v. rewrite decide_False by lia. by rewrite Hscan.
Qed.

(** ** Construction: truncation and configuration errors *)

(** C2. On every valid call of [__init__], truncation changes the end of
    the range of the last shard in order and nothing else: its end, which
    is [total_samples], is the sum of all shard lengths rounded down to a
    multiple of [world_size]; every other range is the one the loop
    recorded; [total_samples] is divisible by [world_size]. With shard
    lengths 10, 10, 7 and [world_size = 4], [total_samples = 24] and the
    length per rank is 6. *)
Theorem C2_truncation_last_shard_only
    (dt : Params → Dataset) sp rank0 ws shuffle0 seed tr :
  0 ≤ rank0 < ws → sp ≠ ∅ →
  ∃ v tr' raw R last_key s,
    __init__ random_shuffle dt sp rank0 ws shuffle0 seed tr = (Ok v, tr')
    ∧ index_shards dt sp (shard_keys v) ∅ 0 tr = (Ok (raw, R), tr')
    ∧ R = sum_lens (shard_len dt sp) (shard_keys v)
    ∧ last (shard_keys v) = Some last_key
    ∧ raw !! last_key = Some (s, R)
    ∧ shard_indices v !! last_key = Some (s, total_samples v)
    ∧ (∀ k, k ≠ last_key → shard_indices v !! k = raw !! k)
    ∧ total_samples v = R - R `mod` ws
    ∧ total_samples v = ws * (R `div` ws)
    ∧ total_samples v `mod` ws = 0
    ∧ (shard_len dt sp <$> shard_keys v = [10; 10; 7] → ws = 4 →
       total_samples v = 24
       ∧ __len__ {| self := v; loads := tr' |}
         = (Ok 6, {| self := v; loads := tr' |})).
Proof.
  intros Hrank Hne.
  destruct (init_run dt sp rank0 ws shuffle0 seed tr Hrank Hne)
    as (raw & keys0 & last_key & s & Hkeys & Hrun & _ & _ & Hl & _ & Hinit).
  set (keys := order_keys random_shuffle sp shuffle0 seed) in *.
  set (R := sum_lens (shard_len dt sp) keys) in *.
  assert (Hws : ws ≠ 0) by lia.
  pose proof (Z.div_mod R ws Hws) as Hdm.
  eexists _, _, raw, R, last_key, s. split; [exact Hinit|]. simpl.
  split_and!.
  - done.
  - done.
  - rewrite Hkeys. apply last_snoc.
  - done.
  - apply lookup_insert_eq.
  - intros k Hk. by apply lookup_insert_ne.
  - done.
  - lia.
  - replace (R - R `mod` ws) with (R `div` ws * ws) by lia.
    apply Z.mod_mul. done.
  - intros Hlens ->.
    assert (HR : R = 27).
    { unfold R, sum_lens. rewrite <- (foldr_fmap Z.add 0 keys (shard_len dt sp)).
      by rewrite Hlens. }
    rewrite HR. split; [done|].
    rewrite len_run by done. done.
Qed.

(** C6. [__init__] raises [ValueError], and returns no view, when the rank
    is outside [[0, world_size)] (so also when [rank = world_size]), when
    there is no shard, and when [world_size] is not positive. *)
Theorem C6_configuration_errors
    (dt : Params → Dataset) sp rank0 ws shuffle0 seed tr :
  ¬ (0 ≤ rank0 < ws) ∨ sp = ∅ ∨ ws ≤ 0 →
  __init__ random_shuffle dt sp rank0 ws shuffle0 seed tr
  = (Raise ValueError, tr).
Proof.
  intros Hbad. unfold __init__.
  destruct ((0 <=? rank0) && (rank0 <? ws)) eqn:Hr; simpl; [|done].
  apply andb_true_iff in Hr as [?%Z.leb_le ?%Z.ltb_lt].
  destruct Hbad as [?|[->|?]]; [lia| |lia].
  by rewrite map_size_empty.
Qed.

(** ** Index translation *)

(** C4. On a constructed view, in any state it reaches,
    [rank_index_to_global_index] returns
    [per_rank_length * rank + rank_index] with
    [per_rank_length = total_samples // world_size] (which is what
    [__len__] returns), for every [rank_index], and leaves the heap as it
    was. *)
Theorem C4_global_index_formula
    (dt : Params → Dataset) sp rank0 ws shuffle0 seed tr v tr' h i :
  __init__ random_shuffle dt sp rank0 ws shuffle0 seed tr = (Ok v, tr') →
  reachable v h →
  let per_rank_length := total_samples v `div` world_size v in
  __len__ h = (Ok per_rank_length, h)
  ∧ rank_index_to_global_index i h
    = (Ok (per_rank_length * rank v + i), h)
  ∧ rank v = rank0 ∧ world_size v = ws.
Proof.
  intros Hinit Hreach len.
  destruct (init_inv _ _ _ _ _ _ _ _ _ Hinit) as [Hrank Hne].
  destruct (init_ok dt sp rank0 ws shuffle0 seed tr Hrank Hne)
    as (v' & Hinit' & Hwf & _ & _ & Hr & Hws & _).
  rewrite Hinit in Hinit'. injection Hinit' as <- _.
  destruct (reachable_wf v h Hwf Hreach) as [Hwfh Hsame].
  destruct Hsame as (_ & _ & Hrk & Hw & _ & _ & _ & Htot).
  pose proof (wf_world_size _ Hwfh).
  rewrite len_run, global_index_run by lia.
  subst len. by rewrite <- Hrk, <- Hw, <- Htot.
Qed.

(** C9. On a constructed view, for every [rank_index] with
    [0 <= rank_index < per_rank_length], the scan of
    [rank_index_to_shard_index] finds a range that holds the global index:
    the call returns, and the [AssertionError] after the loop is not
    reached. *)
Theorem C9_scan_always_finds_range
    (dt : Params → Dataset) sp rank0 ws shuffle0 seed tr v tr' h i :
  __init__ random_shuffle dt sp rank0 ws shuffle0 seed tr = (Ok v, tr') →
  reachable v h →
  0 ≤ i < total_samples v `div` world_size v →
  (rank_index_to_shard_index i h).1 ≠ Raise AssertionError
  ∧ ∃ k r,
      rank_index_to_shard_index i h
      = (Ok (k, total_samples v `div` world_size v * rank v + i - r.1), h)
      ∧ shard_indices v !! k = Some r
      ∧ in_range (total_samples v `div` world_size v * rank v + i) r.
Proof.
  intros Hinit Hreach Hi.
  destruct (init_inv _ _ _ _ _ _ _ _ _ Hinit) as [Hrank Hne].
  destruct (init_ok dt sp rank0 ws shuffle0 seed tr Hrank Hne)
    as (v' & Hinit' & Hwf & _).
  rewrite Hinit in Hinit'. injection Hinit' as <- _.
  destruct (reachable_wf v h Hwf Hreach) as [Hwfh Hsame].
  destruct Hsame as (_ & _ & Hrk & Hw & _ & Hkeys & Hidx & Htot).
  pose proof (wf_world_size _ Hwfh). pose proof (wf_rank _ Hwf).
  destruct (wf_per_rank v Hwf) as [_ Hlen].
  assert (Hg : 0 ≤ total_samples v `div` world_size v * rank v + i
               < total_samples v).
  { apply (wf_slice v i Hwf); [nia|lia]. }
  destruct (sample_at_ok v _ Hwf Hg)
    as (k & r & params & x & Hscan & _ & Hr & Hin & _).
  rewrite shard_index_run by lia.
  rewrite <- Hrk, <- Hw, <- Htot, <- Hkeys, <- Hidx, Hscan. simpl.
  split; [done|]. by exists k, r.
Qed.

(** C5. On a constructed view, in any state it reaches, [__getitem__] at a
    [rank_index] with [rank_index >= per_rank_length] (so also at
    [per_rank_length] itself) raises [IndexError], which is not the
    [ValueError] of a bad configuration; no sample is returned, so the
    index is not clamped, and the heap is left as it was. *)
Theorem C5_out_of_range_raises_IndexError
    (dt : Params → Dataset) sp rank0 ws shuffle0 seed tr v tr' h i :
  __init__ random_shuffle dt sp rank0 ws shuffle0 seed tr = (Ok v, tr') →
  reachable v h →
  total_samples v `div` world_size v ≤ i →
  __getitem__ i h = (Raise IndexError, h)
  ∧ __getitem__ (total_samples v `div` world_size v) h
    = (Raise IndexError, h)
  ∧ IndexError ≠ ValueError.
Proof.
  intros Hinit Hreach Hi.
  destruct (init_inv _ _ _ _ _ _ _ _ _ Hinit) as [Hrank Hne].
  destruct (init_ok dt sp rank0 ws shuffle0 seed tr Hrank Hne)
    as (v' & Hinit' & Hwf & _).
  rewrite Hinit in Hinit'. injection Hinit' as <- _.
  destruct (reachable_wf v h Hwf Hreach) as [Hwfh Hsame].
  destruct Hsame as (_ & _ & _ & Hw & _ & _ & _ & Htot).
  pose proof (wf_world_size _ Hwfh).
  rewrite !getitem_run by (lia || apply Hwfh). cbv zeta.
  rewrite <- Hw, <- Htot.
  rewrite !decide_True by lia. done.
Qed.

(** C3. For views of one registry and [world_size], the map from
    [(rank, rank_index)], with [0 <= rank_index < per_rank_length], to the
    global index is injective; and for every such [rank_index],
    [rank_index_to_shard_index] returns a key and an offset inside the
    range of the key such that the start of the range plus the offset is
    the global index, from which the [rank_index] is recovered. *)
Theorem C3_rank_index_bijection
    (dt : Params → Dataset) sp ws shuffle0 seed
    r1 r2 tr1 tr2 v1 v2 tr1' tr2' h1 h2 i1 i2 :
  __init__ random_shuffle dt sp r1 ws shuffle0 seed tr1 = (Ok v1, tr1') →
  __init__ random_shuffle dt sp r2 ws shuffle0 seed tr2 = (Ok v2, tr2') →
  reachable v1 h1 → reachable v2 h2 →
  let per_rank_length := total_samples v1 `div` ws in
  0 ≤ i1 < per_rank_length → 0 ≤ i2 < per_rank_length →
  ∃ g1 g2 k off r,
    rank_index_to_global_index i1 h1 = (Ok g1, h1)
    ∧ rank_index_to_global_index i2 h2 = (Ok g2, h2)
    ∧ (g1 = g2 → r1 = r2 ∧ i1 = i2)
    ∧ rank_index_to_shard_index i1 h1 = (Ok (k, off), h1)
    ∧ shard_indices v1 !! k = Some r
    ∧ 0 ≤ off < r.2 - r.1
    ∧ r.1 + off = g1
    ∧ r.1 + off - per_rank_length * r1 = i1.
Proof.
  intros Hinit1 Hinit2 Hreach1 Hreach2 len Hi1 Hi2.
  destruct (init_layout_same _ _ _ _ _ _ _ _ _ _ _ _ _ Hinit1 Hinit2)
    as (_ & _ & Hws12 & _ & _ & Htot12).
  destruct (init_inv _ _ _ _ _ _ _ _ _ Hinit1) as [Hrank1 Hne].
  destruct (init_inv _ _ _ _ _ _ _ _ _ Hinit2) as [Hrank2 _].
  destruct (init_ok dt sp r1 ws shuffle0 seed tr1 Hrank1 Hne)
    as (v1' & Hinit1' & Hwf1 & _ & _ & Hr1 & Hws1 & _).
  rewrite Hinit1 in Hinit1'. injection Hinit1' as <- _.
  destruct (init_ok dt sp r2 ws shuffle0 seed tr2 Hrank2 Hne)
    as (v2' & Hinit2' & Hwf2 & _ & _ & Hr2 & Hws2 & _).
  rewrite Hinit2 in Hinit2'. injection Hinit2' as <- _.
  destruct (reachable_wf v1 h1 Hwf1 Hreach1) as [Hwfh1 Hsame1].
  destruct (reachable_wf v2 h2 Hwf2 Hreach2) as [Hwfh2 Hsame2].
  destruct Hsame1 as (_ & _ & Hrk1 & Hw1 & _ & Hkeys1 & Hidx1 & Htot1).
  destruct Hsame2 as (_ & _ & Hrk2 & Hw2 & _ & _ & _ & Htot2).
  assert (Hg : 0 ≤ len * r1 + i1 < total_samples v1).
  { pose proof (wf_slice v1 i1 Hwf1) as Hs. simpl in Hs.
    rewrite Hws1, Hr1 in Hs. fold len in Hs. apply Hs; [nia|lia]. }
  destruct (sample_at_ok v1 _ Hwf1 Hg)
    as (k & r & params & x & Hscan & _ & Hr & Hin & _).
  exists (len * r1 + i1), (len * r2 + i2), k, (len * r1 + i1 - r.1), r.
  unfold in_range in Hin.
  rewrite !global_index_run, shard_index_run by lia.
  rewrite <- Hrk1, <- Hw1, <- Htot1, <- Hrk2, <- Hw2, <- Htot2.
  rewrite <- Hkeys1, <- Hidx1, <- Htot12, Hws1, Hws2, Hr1, Hr2.
  fold len. rewrite Hscan.
  split_and!; [done|done| |done|done|lia..].
  intros Heq.
  assert (r1 = r2) as -> by nia. split; [done|lia].
Qed.

(** C10. On a constructed view of a rank [>= 1], [__getitem__] at a
    negative [rank_index] with
    [-(per_rank_length * rank) <= rank_index < 0] raises nothing: it
    returns the sample at global index
    [per_rank_length * rank + rank_index]. That index belongs to the
    slice of a lower rank, whose view returns the same sample at one of
    its own valid indices. *)
Theorem C10_negative_index_reads_lower_rank
    (dt : Params → Dataset) sp rank0 ws shuffle0 seed tr v tr' h i :
  __init__ random_shuffle dt sp rank0 ws shuffle0 seed tr = (Ok v, tr') →
  reachable v h →
  1 ≤ rank0 →
  let per_rank_length := total_samples v `div` ws in
  - (per_rank_length * rank0) ≤ i < 0 →
  let g := per_rank_length * rank0 + i in
  ∃ x,
    (__getitem__ i h).1 = Ok x
    ∧ sample_at v g = Ok x
    ∧ 0 ≤ g `div` per_rank_length < rank0
    ∧ 0 ≤ g `mod` per_rank_length < per_rank_length
    ∧ g = per_rank_length * (g `div` per_rank_length)
          + g `mod` per_rank_length
    ∧ ∀ tr2 v2 tr2' h2,
        __init__ random_shuffle dt sp (g `div` per_rank_length) ws
          shuffle0 seed tr2 = (Ok v2, tr2') →
        reachable v2 h2 →
        (__getitem__ (g `mod` per_rank_length) h2).1 = Ok x.
Proof.
  intros Hinit Hreach Hpos len Hi g.
  destruct (init_inv _ _ _ _ _ _ _ _ _ Hinit) as [Hrank Hne].
  destruct (init_ok dt sp rank0 ws shuffle0 seed tr Hrank Hne)
    as (v' & Hinit' & Hwf & _ & _ & Hr & Hws & _).
  rewrite Hinit in Hinit'. injection Hinit' as <- _.
  destruct (reachable_wf v h Hwf Hreach) as [Hwfh Hsame].
  destruct Hsame as (Hdt & Hsp & Hrk & Hw & _ & Hkeys & Hidx & Htot).
  assert (Hlen : 0 < len) by nia.
  destruct (getitem_sample h i Hwfh) as (x & Hget & Hx).
  { rewrite <- Htot, <- Hw, <- Hrk, Hws, Hr. fold len. lia. }
  { rewrite <- Htot, <- Hw, Hws. fold len. lia. }
  rewrite <- Htot, <- Hw, <- Hrk, Hws, Hr in Hx. fold len g in Hx.
  rewrite <- (sample_at_same v (self h)) in Hx by done.
  pose proof (Z.div_mod g len ltac:(lia)) as Hdm.
  pose proof (Z.mod_pos_bound g len Hlen) as Hmod.
  assert (Hdiv : 0 ≤ g `div` len < rank0).
  { split; [apply Z.div_pos; lia|].
    apply Z.div_lt_upper_bound; [lia|]. unfold g. lia. }
  exists x. split_and!; [done|done|lia..|].
  intros tr2 v2 tr2' h2 Hinit2 Hreach2.
  destruct (init_layout_same _ _ _ _ _ _ _ _ _ _ _ _ _ Hinit Hinit2)
    as (Hdt2 & Hsp2 & Hws2 & Hkeys2 & Hidx2 & Htot2).
  destruct (init_inv _ _ _ _ _ _ _ _ _ Hinit2) as [Hrank2 _].
  destruct (init_ok dt sp (g `div` len) ws shuffle0 seed tr2 Hrank2 Hne)
    as (v2' & Hinit2' & Hwf2 & _ & _ & Hr2 & Hw2 & _).
  rewrite Hinit2 in Hinit2'. injection Hinit2' as <- _.
  destruct (reachable_wf v2 h2 Hwf2 Hreach2) as [Hwfh2 Hsame2].
  destruct Hsame2 as (Hdt' & Hsp' & Hrk' & Hw' & _ & Hkeys' & Hidx' & Htot').
  destruct (getitem_sample h2 (g `mod` len) Hwfh2) as (y & Hget2 & Hy).
  { rewrite <- Htot', <- Hw', <- Hrk', <- Htot2, Hw2, Hr2. fold len. lia. }
  { rewrite <- Htot', <- Hw', <- Htot2, Hw2. fold len. lia. }
  rewrite <- Htot', <- Hw', <- Hrk', <- Htot2, Hw2, Hr2 in Hy. fold len in Hy.
  rewrite <- Hdm in Hy.
  rewrite <- (sample_at_same v (self h2)) in Hy by congruence.
  rewrite Hget2. congruence.
Qed.

(** ** A pass over increasing indices *)

Lemma pass_loads_subseteq cur ks : pass_loads cur ks ⊆ ks.
Proof.
  revert cur. induction ks as [|k ks IH]; intros cur; simpl; [done|].
  destruct (decide _).
  - intros x Hx. apply list_elem_of_further. by apply (IH cur).
  - intros x [->|Hx]%elem_of_cons; [apply list_elem_of_here|].
    apply list_elem_of_further. by apply (IH (Some k)).
Qed.

Section PassLoads.
Context (f : string → Z).

Lemma pass_loads_NoDup_from c ks :
  (∀ k k', k ∈ c :: ks → k' ∈ c :: ks → f k = f k' → k = k') →
  StronglySorted (λ a b, f a ≤ f b) (c :: ks) →
  NoDup (pass_loads (Some c) ks) ∧ c ∉ pass_loads (Some c) ks.
Proof.
  revert c. induction ks as [|k ks IH]; intros c Hinj Hs; simpl.
  { split; [constructor|apply not_elem_of_nil]. }
  apply StronglySorted_inv in Hs as [Hs Hc].
  pose proof Hs as [Hs' Hk]%StronglySorted_inv.
  apply Forall_cons in Hc as [Hck Hc].
  destruct (decide (Some c = Some k)) as [[= <-]|Hne].
  - apply IH.
    + intros k1 k2 H1 H2. apply Hinj; set_solver.
    + by constructor.
  - destruct (IH k) as [Hnd Hnotin]; [|done|].
    { intros k1 k2 H1 H2. apply Hinj; set_solver. }
    split; [by constructor|].
    intros [->|Hin]%elem_of_cons; [done|].
    apply pass_loads_subseteq in Hin.
    assert (f c = f k) as Heq.
    { rewrite Forall_forall in Hk. specialize (Hk c Hin). simpl in Hk. lia. }
    apply Hinj in Heq; [congruence|set_solver..].
Qed.

Lemma pass_loads_NoDup cur ks :
  (∀ k k', k ∈ ks → k' ∈ ks → f k = f k' → k = k') →
  StronglySorted (λ a b, f a ≤ f b) ks →
  NoDup (pass_loads cur ks).
Proof.
  intros Hinj Hs. destruct ks as [|k ks]; simpl; [constructor|].
  destruct (pass_loads_NoDup_from k ks Hinj Hs) as [Hnd Hnotin].
  destruct (decide (cur = Some k)) as [->|Hne]; [done|by constructor].
Qed.
End PassLoads.

(** Of two resolved global indices, the larger resolves to the same shard
    or to one whose range starts later. *)
Lemma resolved_order v g g' k k' off off' :
  wf_view v → g ≤ g' →
  scan_shards (shard_indices v) (shard_keys v) g = Ok (k, off) →
  scan_shards (shard_indices v) (shard_keys v) g' = Ok (k', off') →
  k = k' ∨ range_start v k < range_start v k'.
Proof.
  intros Hwf Hle Hs Hs'.
  destruct (scan_shards_sound _ _ _ _ _ Hs) as (Hk & r & Hr & Hin & _).
  destruct (scan_shards_sound _ _ _ _ _ Hs') as (Hk' & r' & Hr' & Hin' & _).
  unfold range_start. rewrite Hr, Hr'. unfold in_range in *.
  apply list_elem_of_lookup_1 in Hk as [p Hp].
  apply list_elem_of_lookup_1 in Hk' as [p' Hp'].
  destruct (lt_eq_lt_dec p p') as [[Hlt| ->]|Hlt].
  - destruct (wf_ordered v _ _ _ _ _ _ Hwf Hp Hp' Hlt Hr Hr'). right. lia.
  - left. congruence.
  - destruct (wf_ordered v _ _ _ _ _ _ Hwf Hp' Hp Hlt Hr' Hr). lia.
Qed.

Lemma resolves_order v i i' k k' :
  wf_view v → i ≤ i' → resolves v i k → resolves v i' k' →
  k = k' ∨ range_start v k < range_start v k'.
Proof.
  intros Hwf Hle [off Hs] [off' Hs'].
  eapply (resolved_order v); [done| |exact Hs|exact Hs']. lia.
Qed.

Lemma resolves_pass v idxs ks :
  wf_view v → StronglySorted Z.lt idxs → Forall2 (resolves v) idxs ks →
  StronglySorted (λ a b, range_start v a ≤ range_start v b) ks
  ∧ (∀ k k', k ∈ ks → k' ∈ ks →
       range_start v k = range_start v k' → k = k').
Proof.
  intros Hwf Hsorted HF. split.
  - induction HF as [|i k idxs ks Hik HF IH]; [constructor|].
    apply StronglySorted_inv in Hsorted as [Hs Hi].
    constructor; [by apply IH|].
    apply Forall_forall. intros k' Hk'.
    apply list_elem_of_lookup_1 in Hk' as [p Hp].
    destruct (Forall2_lookup_r _ _ _ _ _ HF Hp) as (i' & Hi' & Hres).
    rewrite Forall_forall in Hi.
    pose proof (Hi i' (list_elem_of_lookup_2 _ _ _ Hi')).
    destruct (resolves_order v i i' k k' Hwf) as [->|?]; [lia|done..|lia|lia].
  - intros k k' Hk Hk' Heq.
    apply list_elem_of_lookup_1 in Hk as [p Hp].
    apply list_elem_of_lookup_1 in Hk' as [p' Hp'].
    destruct (Forall2_lookup_r _ _ _ _ _ HF Hp) as (i & Hi & Hres).
    destruct (Forall2_lookup_r _ _ _ _ _ HF Hp') as (i' & Hi' & Hres').
    destruct (Z.le_ge_cases i i') as [Hle|Hle].
    + destruct (resolves_order v i i' k k' Hwf Hle Hres Hres'); [done|lia].
    + destruct (resolves_order v i' i k' k Hwf Hle Hres' Hres); [done|lia].
Qed.

Lemma heap_after_loads h k :
  is_Some (shard_params (self h) !! k) →
  loads (heap_after h k)
  = loads h ++ pass_loads (_current_shard_key (self h)) [k]
  ∧ _current_shard_key (self (heap_after h k)) = Some k.
Proof.
  intros [params Hp]. unfold heap_after. simpl.
  destruct (decide _) as [Hcur|Hcur]; [by rewrite app_nil_r|].
  by rewrite Hp.
Qed.

Lemma pass_loads_cons cur k ks :
  pass_loads cur (k :: ks) = pass_loads cur [k] ++ pass_loads (Some k) ks.
Proof.
  simpl. destruct (decide (cur = Some k)) as [->|?]; [done|done].
Qed.

Lemma resolves_same v v' i k :
  same_index v v' → resolves v i k → resolves v' i k.
Proof.
  intros (_ & _ & Hrk & Hw & _ & Hkeys & Hidx & Htot). unfold resolves.
  by rewrite Hrk, Hw, Hkeys, Hidx, Htot.
Qed.

(** A pass over valid indices returns a sample for each of them and
    constructs what [pass_loads] says. *)
Lemma get_all_run v idxs h :
  wf_view (self h) → same_index v (self h) →
  Forall (λ i, 0 ≤ i < total_samples v `div` world_size v) idxs →
  ∃ xs ks h',
    get_all idxs h = (Ok xs, h')
    ∧ length xs = length idxs
    ∧ Forall2 (resolves v) idxs ks
    ∧ loads h' = loads h ++ pass_loads (_current_shard_key (self h)) ks
    ∧ wf_view (self h') ∧ same_index v (self h').
Proof.
  revert h. induction idxs as [|i idxs IH]; intros h Hwf Hsame Hvalid.
  { exists [], [], h. simpl. rewrite app_nil_r. by split_and!. }
  apply Forall_cons in Hvalid as [Hi Hvalid].
  pose proof Hsame as (_ & _ & Hrk & Hw & _ & Hkeys & Hidx & Htot).
  pose proof (wf_world_size _ Hwf) as Hws.
  pose proof (wf_rank _ Hwf) as Hrank.
  destruct (wf_per_rank _ Hwf) as [_ Hlen].
  rewrite Htot, Hw in Hi.
  assert (Hg : 0 ≤ total_samples (self h) `div` world_size (self h)
                   * rank (self h) + i < total_samples (self h)).
  { apply (wf_slice (self h) i Hwf); [nia|lia]. }
  destruct (sample_at_ok (self h) _ Hwf Hg)
    as (k & r & params & x & Hscan & Hk & _ & _ & Hp & _ & Hx).
  destruct (heap_after_wf h k Hwf Hk) as [Hwf' Hsame'].
  destruct (heap_after_loads h k) as [Hloads Hcur]; [by rewrite Hp|].
  destruct (IH (heap_after h k) Hwf' (same_index_trans _ _ _ Hsame Hsame')
              Hvalid)
    as (xs & ks & h' & Hrun & Hlen' & HF & Hl & Hwf'' & Hsame'').
  exists (x :: xs), (k :: ks), h'. split_and!.
  - cbn [get_all]. rewrite bind_run.
    rewrite getitem_run by (lia || apply Hwf). cbv zeta.
    rewrite decide_False by lia. rewrite Hscan, Hx.
    rewrite bind_run, Hrun. done.
  - simpl. by rewrite Hlen'.
  - constructor; [|done].
    apply (resolves_same (self h) v).
    { by apply same_index_sym. }
    by eexists.
  - rewrite Hl, Hloads, Hcur, (pass_loads_cons _ k ks), app_assoc. done.
  - done.
  - done.
Qed.

(** C8. On a constructed view, in any state it reaches, a pass of
    [__getitem__] over strictly increasing valid indices returns a sample
    for every index; the shards it resolves have range starts that never
    decrease; and no shard is constructed twice during the pass. At any
    call, the shard held in the cache cell is not constructed again when
    the index resolves to it. *)
Theorem C8_monotone_pass_loads_each_shard_once
    (dt : Params → Dataset) sp rank0 ws shuffle0 seed tr v tr' h idxs :
  __init__ random_shuffle dt sp rank0 ws shuffle0 seed tr = (Ok v, tr') →
  reachable v h →
  Sorted Z.lt idxs →
  Forall (λ i, 0 ≤ i < total_samples v `div` world_size v) idxs →
  (∃ xs ks new_loads h',
     get_all idxs h = (Ok xs, h')
     ∧ length xs = length idxs
     ∧ Forall2 (λ i k, ∃ off,
                  rank_index_to_shard_index i h = (Ok (k, off), h)) idxs ks
     ∧ Sorted Z.le (range_start v <$> ks)
     ∧ loads h' = loads h ++ new_loads
     ∧ NoDup new_loads
     ∧ new_loads ⊆ ks)
  ∧ (∀ h1 i k off,
       reachable v h1 →
       rank_index_to_shard_index i h1 = (Ok (k, off), h1) →
       _current_shard_key (self h1) = Some k →
       loads (__getitem__ i h1).2 = loads h1).
Proof.
  intros Hinit Hreach Hsorted Hvalid.
  destruct (init_inv _ _ _ _ _ _ _ _ _ Hinit) as [Hrank Hne].
  destruct (init_ok dt sp rank0 ws shuffle0 seed tr Hrank Hne)
    as (v' & Hinit' & Hwf & _).
  rewrite Hinit in Hinit'. injection Hinit' as <- _.
  split.
  - destruct (reachable_wf v h Hwf Hreach) as [Hwfh Hsame].
    destruct (get_all_run v idxs h Hwfh Hsame Hvalid)
      as (xs & ks & h' & Hrun & Hlen & HF & Hl & _ & _).
    apply Sorted_StronglySorted in Hsorted; [|apply _].
    destruct (resolves_pass v idxs ks Hwf Hsorted HF) as [Hmono Hinj].
    exists xs, ks, (pass_loads (_current_shard_key (self h)) ks), h'.
    split_and!; [done|done| | |done| |].
    + eapply Forall2_impl; [exact HF|]. intros i k Hres.
      apply (resolves_same v (self h) i k Hsame) in Hres as [off Hoff].
      exists off. rewrite shard_index_run; [by rewrite Hoff|].
      pose proof (wf_world_size _ Hwfh). lia.
    + apply StronglySorted_Sorted.
      clear -Hmono. induction Hmono as [|k ks Hs IH Hk]; simpl; [constructor|].
      constructor; [done|]. by apply Forall_fmap.
    + by apply (pass_loads_NoDup (range_start v)).
    + apply pass_loads_subseteq.
  - intros h1 i k off Hreach1 Hres Hcur.
    destruct (reachable_wf v h1 Hwf Hreach1) as [Hwf1 _].
    pose proof (wf_world_size _ Hwf1).
    rewrite shard_index_run in Hres by lia. injection Hres as Hres.
    rewrite getitem_run by (lia || apply Hwf1). cbv zeta.
    destruct (decide _); [done|]. rewrite Hres. simpl.
    unfold heap_after. by rewrite decide_True.
Qed.

(** ** The layout as a partition *)

Lemma sum_lens_app len keys keys' :
  sum_lens len (keys ++ keys') = sum_lens len keys + sum_lens len keys'.
Proof.
  unfold sum_lens. induction keys as [|k keys IH]; simpl; [done|].
  rewrite IH. lia.
Qed.

(** On a well-formed view the ranges are ordered by start, an earlier
    range ends before a later one starts, and every index of
    [[0, total_samples)] lies in a range. When the last shard is at least
    as long as the remainder that is cut off, the ranges hold nothing
    else. *)
Lemma ranges_sorted_disjoint_cover v :
  wf_view v →
  (∀ i j k k' r r',
     shard_keys v !! i = Some k → shard_keys v !! j = Some k' → (i < j)%nat →
     shard_indices v !! k = Some r → shard_indices v !! k' = Some r' →
     r.1 ≤ r'.1 ∧ r.2 ≤ r'.1)
  ∧ (∀ g, 0 ≤ g < total_samples v →
       ∃ k r, k ∈ shard_keys v ∧ shard_indices v !! k = Some r ∧ in_range g r)
  ∧ (∀ last_key,
       last (shard_keys v) = Some last_key →
       let len := shard_len (dataset_type v) (shard_params v) in
       sum_lens len (shard_keys v) `mod` world_size v ≤ len last_key →
       ∀ g k r, k ∈ shard_keys v → shard_indices v !! k = Some r →
         in_range g r → 0 ≤ g < total_samples v).
Proof.
  intros Hwf. split_and!.
  - intros i j k k' r r' Hi Hj Hlt Hr Hr'.
    destruct (wf_ordered v i j k k' r r' Hwf Hi Hj Hlt Hr Hr'). done.
  - intros g Hg.
    destruct (sample_at_ok v g Hwf Hg) as (k & r & _ & _ & _ & Hk & Hr & Hin & _).
    by exists k, r.
  - intros last_key Hlast len Hlong g k r Hk Hr Hin.
    destruct (wf_layout v Hwf) as (keys & last' & s & Hkeys & Hc & Hl & Htot).
    rewrite Hkeys, last_snoc in Hlast. injection Hlast as ->.
    pose proof (chain_end _ _ _ _ _ Hc) as Hs.
    rewrite Hkeys, sum_lens_app in Hlong. simpl in Hlong, Htot.
    fold len in Hs, Htot. rewrite Z.add_0_r in Hlong.
    rewrite Z.add_0_l in Hs. rewrite <- Hs in Hlong.
    unfold in_range in Hin.
    rewrite Hkeys in Hk. apply elem_of_app in Hk as [Hk|Hk].
    + destruct (chain_bounds _ (shard_len_nonneg _ _) _ _ _ _ _ _ Hc Hk Hr)
        as (? & ? & ? & ?). lia.
    + apply list_elem_of_singleton in Hk as ->.
      rewrite Hl in Hr. injection Hr as <-. simpl in Hin.
      pose proof (chain_le _ (shard_len_nonneg _ _) _ _ _ _ Hc). lia.
Qed.

(** ** Further properties of the view *)

Lemma chain_lookup len m keys a b k :
  chain len m keys a b → k ∈ keys → is_Some (m !! k).
Proof.
  induction 1 as [a|k' keys a b Hk _ IH]; intros Hin.
  - by apply elem_of_nil in Hin.
  - apply elem_of_cons in Hin as [->|Hin]; [by eexists|by apply IH].
Qed.

Lemma wf_indices v k :
  wf_view v → k ∈ shard_keys v → is_Some (shard_indices v !! k).
Proof.
  intros Hwf Hk.
  destruct (wf_layout v Hwf) as (keys & last_key & s & Hkeys & Hc & Hl & _).
  rewrite Hkeys in Hk. apply elem_of_app in Hk as [Hk|Hk].
  - by eapply chain_lookup.
  - apply list_elem_of_singleton in Hk as ->. by eexists.
Qed.

(** When every key has a range, the scan fails only by running off the
    end, and then no range holds the index. *)
Lemma scan_shards_raise m keys g e :
  (∀ k, k ∈ keys → is_Some (m !! k)) →
  scan_shards m keys g = Raise e →
  e = AssertionError
  ∧ ∀ k r, k ∈ keys → m !! k = Some r → ¬ in_range g r.
Proof.
  induction keys as [|k0 keys IH]; intros Hall; simpl.
  - intros [= <-]. split; [done|]. intros k r Hk. by apply elem_of_nil in Hk.
  - destruct (Hall k0) as [r0 Hr0]; [apply list_elem_of_here|].
    unfold dict_getitem. rewrite Hr0.
    destruct ((r0.1 <=? g) && (g <? r0.2)) eqn:Hin; [done|].
    intros Hscan. destruct IH as [He Hnone]; [|done|].
    { intros k Hk. apply Hall. by apply list_elem_of_further. }
    split; [done|]. intros k r Hk Hr.
    apply elem_of_cons in Hk as [->|Hk].
    + rewrite Hr0 in Hr. injection Hr as <-. unfold in_range. intros [? ?].
      apply andb_false_iff in Hin as [?%Z.leb_gt|?%Z.ltb_ge]; lia.
    + by apply (Hnone k r).
Qed.

(** Whatever the scan resolves on a well-formed view is an item of the
    resolved shard. *)
Lemma sample_at_resolved v g k off :
  wf_view v →
  scan_shards (shard_indices v) (shard_keys v) g = Ok (k, off) →
  ∃ r params x,
    k ∈ shard_keys v ∧ shard_indices v !! k = Some r ∧ in_range g r
    ∧ off = g - r.1
    ∧ shard_params v !! k = Some params
    ∧ dataset_type v params !! Z.to_nat off = Some x
    ∧ sample_at v g = Ok x.
Proof.
  intros Hwf Hscan.
  destruct (scan_shards_sound _ _ _ _ _ Hscan) as (Hk & r & Hr & Hin & ->).
  destruct (wf_params v k Hwf Hk) as [params Hp].
  destruct (wf_range_within v k r Hwf Hk Hr) as [Hlen _].
  unfold shard_len in Hlen. rewrite Hp in Hlen. unfold in_range in Hin.
  destruct (lookup_lt_is_Some_2 (dataset_type v params) (Z.to_nat (g - r.1)))
    as [x Hx]; [lia|].
  exists r, params, x. split_and!; [done..|].
  unfold sample_at. rewrite Hscan, Hp. apply py_getitem_nat; [lia|done].
Qed.

(** A view returned by [__init__] in any state it reaches. *)
Lemma constructed_wf
    (dt : Params → Dataset) sp rank0 ws shuffle0 seed tr v tr' h :
  __init__ random_shuffle dt sp rank0 ws shuffle0 seed tr = (Ok v, tr') →
  reachable v h →
  wf_view v ∧ wf_view (self h) ∧ same_index v (self h)
  ∧ dataset_type v = dt ∧ shard_params v = sp ∧ rank v = rank0
  ∧ world_size v = ws ∧ 0 ≤ rank0 < ws ∧ sp ≠ ∅.
Proof.
  intros Hinit Hreach.
  destruct (init_inv _ _ _ _ _ _ _ _ _ Hinit) as [Hrank Hne].
  destruct (init_ok dt sp rank0 ws shuffle0 seed tr Hrank Hne)
    as (v' & Hinit' & Hwf & Hdt & Hsp & Hr & Hws & _).
  rewrite Hinit in Hinit'. injection Hinit' as <- _.
  destruct (reachable_wf v h Hwf Hreach) as [Hwfh Hsame]. done.
Qed.

(** X1. A valid call of [__init__] constructs every shard of the registry
    exactly once, in the order of [shard_keys], and keeps none of them: the
    keys are the keys of the registry without repetition, every key gets a
    range, and the cache cell is empty. *)
Theorem X1_init_constructs_each_shard_once
    (dt : Params → Dataset) sp rank0 ws shuffle0 seed tr :
  0 ≤ rank0 < ws → sp ≠ ∅ →
  ∃ v,
    __init__ random_shuffle dt sp rank0 ws shuffle0 seed tr
    = (Ok v, tr ++ shard_keys v)
    ∧ NoDup (shard_keys v)
    ∧ (∀ k, k ∈ shard_keys v ↔ is_Some (sp !! k))
    ∧ (∀ k, is_Some (shard_indices v !! k) ↔ is_Some (sp !! k))
    ∧ _current_shard_key v = None
    ∧ _current_shard v = None.
Proof.
  intros Hrank Hne.
  destruct (init_run dt sp rank0 ws shuffle0 seed tr Hrank Hne)
    as (raw & keys0 & last_key & s & Hkeys & Hrun & Hchain & _ & Hl & _ & Hinit).
  destruct (index_shards_run dt sp
              (order_keys random_shuffle sp shuffle0 seed) ∅ 0 tr)
    as (raw' & Hrun' & _ & _ & Hdom).
  { apply order_keys_NoDup. }
  { intros k Hk. by apply (order_keys_elem_of sp shuffle0 seed). }
  { intros k _. apply lookup_empty. }
  rewrite Z.add_0_l, Hrun in Hrun'. injection Hrun' as <-.
  eexists. split; [exact Hinit|]. simpl. split_and!.
  - apply order_keys_NoDup.
  - intros k. apply order_keys_elem_of.
  - intros k. rewrite <- !elem_of_dom, dom_insert_L, Hdom, dom_empty_L.
    rewrite !elem_of_union, elem_of_singleton, elem_of_list_to_set.
    rewrite elem_of_empty, elem_of_dom.
    rewrite <- (order_keys_elem_of sp shuffle0 seed k), Hkeys.
    rewrite elem_of_app, list_elem_of_singleton. naive_solver.
  - done.
  - done.
Qed.

(** X2. On a valid call, the length of the view is the sum of the shard
    lengths divided by [world_size], rounded down; it times [world_size]
    is [total_samples]; and fewer than [world_size] samples are left
    out. *)
Theorem X2_len_is_floor_of_sum
    (dt : Params → Dataset) sp rank0 ws shuffle0 seed tr :
  0 ≤ rank0 < ws → sp ≠ ∅ →
  ∃ v tr',
    __init__ random_shuffle dt sp rank0 ws shuffle0 seed tr = (Ok v, tr')
    ∧ let R := sum_lens (shard_len dt sp) (shard_keys v) in
      let h := {| self := v; loads := tr' |} in
      __len__ h = (Ok (R `div` ws), h)
      ∧ R `div` ws * ws = total_samples v
      ∧ 0 ≤ R `div` ws
      ∧ 0 ≤ R - total_samples v < ws.
Proof.
  intros Hrank Hne.
  destruct (init_run dt sp rank0 ws shuffle0 seed tr Hrank Hne)
    as (raw & keys0 & last_key & s & Hkeys & _ & Hchain & _ & _ & _ & Hinit).
  set (keys := order_keys random_shuffle sp shuffle0 seed) in *.
  set (R := sum_lens (shard_len dt sp) keys) in *.
  assert (Hws : ws ≠ 0) by lia.
  pose proof (Z.div_mod R ws Hws) as Hdm.
  pose proof (Z.mod_pos_bound R ws ltac:(lia)) as Hmod.
  assert (HR : 0 ≤ R).
  { pose proof (chain_le _ (shard_len_nonneg dt sp) _ _ _ _ Hchain). lia. }
  eexists _, _. split; [exact Hinit|]. simpl.
  rewrite len_run by done. simpl.
  assert (Hdiv : (R - R `mod` ws) `div` ws = R `div` ws).
  { replace (R - R `mod` ws) with (R `div` ws * ws) by lia.
    by apply Z.div_mul. }
  rewrite Hdiv. fold R. split_and!; [done|lia| |lia|lia].
  apply Z.div_pos; lia.
Qed.

(** X3. Every global index of [[0, total_samples)] belongs to exactly one
    rank: it is the global index of the pair
    [(g // len, g % len)] and of no other valid pair, that rank is a rank
    of the world, and the view of that rank returns the sample stored at
    the index. *)
Theorem X3_global_index_served_by_one_rank
    (dt : Params → Dataset) sp rank0 ws shuffle0 seed tr v tr' g :
  __init__ random_shuffle dt sp rank0 ws shuffle0 seed tr = (Ok v, tr') →
  0 ≤ g < total_samples v →
  let len := total_samples v `div` ws in
  0 ≤ g `div` len < ws
  ∧ 0 ≤ g `mod` len < len
  ∧ (∀ r i, 0 ≤ i < len → len * r + i = g →
       r = g `div` len ∧ i = g `mod` len)
  ∧ ∃ x,
      sample_at v g = Ok x
      ∧ ∀ tr2 v2 tr2' h2,
          __init__ random_shuffle dt sp (g `div` len) ws shuffle0 seed tr2
          = (Ok v2, tr2') →
          reachable v2 h2 →
          (__getitem__ (g `mod` len) h2).1 = Ok x.
Proof.
  intros Hinit Hg len.
  destruct (constructed_wf _ _ _ _ _ _ _ _ _ _ Hinit (reach_init v tr'))
    as (Hwf & _ & _ & _ & _ & _ & Hws & Hrank & _).
  destruct (wf_per_rank v Hwf) as [Htot Hlen0].
  rewrite Hws in Htot, Hlen0. fold len in Htot, Hlen0.
  assert (Hlen : 0 < len) by nia.
  pose proof (Z.div_mod g len ltac:(lia)) as Hdm.
  pose proof (Z.mod_pos_bound g len Hlen) as Hmod.
  assert (Hdiv : 0 ≤ g `div` len < ws).
  { split; [apply Z.div_pos; lia|]. apply Z.div_lt_upper_bound; lia. }
  destruct (sample_at_ok v g Hwf Hg) as (_ & _ & _ & x & _ & _ & _ & _ & _ & _ & Hx).
  split_and!; [lia..| |].
  - intros r i Hi Hri.
    assert (r = g `div` len) as ->.
    { apply (Z.div_unique g len r i); lia. }
    split; [done|lia].
  - exists x. split; [done|].
    intros tr2 v2 tr2' h2 Hinit2 Hreach2.
    destruct (init_layout_same _ _ _ _ _ _ _ _ _ _ _ _ _ Hinit Hinit2)
      as (Hdt2 & Hsp2 & Hws2 & Hkeys2 & Hidx2 & Htot2).
    destruct (constructed_wf _ _ _ _ _ _ _ _ _ _ Hinit2 Hreach2)
      as (_ & Hwfh2 & Hsame2 & _ & _ & Hr2 & Hw2 & _).
    destruct Hsame2 as (Hdt' & Hsp' & Hrk' & Hw' & _ & Hkeys' & Hidx' & Htot').
    destruct (getitem_sample h2 (g `mod` len) Hwfh2) as (y & Hget2 & Hy).
    { rewrite <- Htot', <- Hw', <- Hrk', <- Htot2, Hw2, Hr2. fold len. lia. }
    { rewrite <- Htot', <- Hw', <- Htot2, Hw2. fold len. lia. }
    rewrite <- Htot', <- Hw', <- Hrk', <- Htot2, Hw2, Hr2 in Hy.
    fold len in Hy. rewrite <- Hdm in Hy.
    rewrite <- (sample_at_same v (self h2)) in Hy by congruence.
    rewrite Hget2. congruence.
Qed.

(** X4. On a constructed view, [__getitem__] at a valid [rank_index]
    returns the item of the resolved shard at the offset of the global
    index from the start of the range of that shard; afterwards the cache
    cell holds that shard, and the shard was constructed during the call
    exactly when the cell did not hold it before. *)
Theorem X4_getitem_returns_item_and_caches_shard
    (dt : Params → Dataset) sp rank0 ws shuffle0 seed tr v tr' h i :
  __init__ random_shuffle dt sp rank0 ws shuffle0 seed tr = (Ok v, tr') →
  reachable v h →
  0 ≤ i < total_samples v `div` ws →
  let g := total_samples v `div` ws * rank0 + i in
  let h' := (__getitem__ i h).2 in
  ∃ k r params x,
    shard_indices v !! k = Some r ∧ in_range g r
    ∧ sp !! k = Some params
    ∧ dt params !! Z.to_nat (g - r.1) = Some x
    ∧ (__getitem__ i h).1 = Ok x
    ∧ _current_shard_key (self h') = Some k
    ∧ _current_shard (self h') = Some (dt params)
    ∧ loads h'
      = loads h
        ++ (if decide (_current_shard_key (self h) = Some k) then [] else [k]).
Proof.
  intros Hinit Hreach Hi g h'.
  destruct (constructed_wf _ _ _ _ _ _ _ _ _ _ Hinit Hreach)
    as (Hwf & Hwfh & Hsame & Hdt & Hsp & Hr & Hws & Hrank & _).
  destruct Hsame as (Hdt' & Hsp' & Hrk & Hw & _ & Hkeys & Hidx & Htot).
  pose proof (wf_world_size _ Hwfh) as Hws1.
  assert (Hg : 0 ≤ g < total_samples (self h)).
  { rewrite <- Htot. pose proof (wf_slice v i Hwf) as Hs. simpl in Hs.
    rewrite Hws, Hr in Hs. apply Hs; [|lia].
    destruct (wf_per_rank v Hwf) as [_ ?]. rewrite Hws in *. nia. }
  destruct (wf_scan_found (self h) g Hwfh Hg) as (k & off & Hscan).
  destruct (sample_at_resolved (self h) g k off Hwfh Hscan)
    as (r & params & x & Hk & Hrk' & Hin & -> & Hp & Hx & Hsample).
  exists k, r, params, x.
  assert (Hrun : __getitem__ i h = (Ok x, heap_after h k)).
  { rewrite getitem_run by (lia || apply Hwfh). cbv zeta.
    rewrite <- Htot, <- Hw, <- Hrk, Hws, Hr.
    rewrite decide_False by lia.
    fold g. by rewrite Hscan, Hsample. }
  subst h'. rewrite Hrun. simpl.
  assert (Hdt2 : dataset_type (self h) = dt) by congruence.
  assert (Hsp2 : shard_params (self h) = sp) by congruence.
  rewrite Hdt2 in Hx. rewrite Hsp2 in Hp.
  split_and!; [by rewrite Hidx|done|done|done|done|..].
  - by destruct (heap_after_loads h k) as [_ ?]; [by rewrite Hsp2, Hp|].
  - unfold heap_after. destruct (decide _) as [Hcur|Hcur].
    + destruct (wf_cache _ Hwfh k Hcur) as (params' & Hp' & Hshard).
      rewrite Hsp2, Hp in Hp'. injection Hp' as <-. by rewrite Hshard, Hdt2.
    + rewrite Hsp2, Hp. simpl. by rewrite Hdt2.
  - destruct (heap_after_loads h k) as [Hl _]; [by rewrite Hsp2, Hp|].
    rewrite Hl. simpl. by destruct (decide _).
Qed.


(** X6. On a constructed view, [__getitem__] at an index below
    [-(len * rank)], whose global index is negative, raises
    [AssertionError], not [IndexError], and so does
    [rank_index_to_shard_index]; the heap is left as it was. *)
Theorem X6_negative_global_index_raises_AssertionError
    (dt : Params → Dataset) sp rank0 ws shuffle0 seed tr v tr' h i :
  __init__ random_shuffle dt sp rank0 ws shuffle0 seed tr = (Ok v, tr') →
  reachable v h →
  i < - (total_samples v `div` ws * rank0) →
  __getitem__ i h = (Raise AssertionError, h)
  ∧ rank_index_to_shard_index i h = (Raise AssertionError, h).
Proof.
  intros Hinit Hreach Hi.
  destruct (constructed_wf _ _ _ _ _ _ _ _ _ _ Hinit Hreach)
    as (Hwf & Hwfh & Hsame & Hdt & Hsp & Hr & Hws & Hrank & _).
  destruct Hsame as (Hdt' & Hsp' & Hrk & Hw & _ & Hkeys & Hidx & Htot).
  pose proof (wf_world_size _ Hwfh) as Hws1.
  destruct (wf_per_rank v Hwf) as [_ Hlen]. rewrite Hws in Hlen.
  rewrite getitem_run, shard_index_run by (lia || apply Hwfh). cbv zeta.
  rewrite <- Htot, <- Hw, <- Hrk, Hws, Hr.
  rewrite decide_False by nia.
  destruct (scan_shards _ _ _) as [[k off]|e] eqn:Hscan.
  - destruct (scan_shards_sound _ _ _ _ _ Hscan) as (Hk & r & Hkr & Hin & _).
    destruct (wf_range_within _ k r Hwfh Hk Hkr) as [_ Hstart].
    unfold in_range in Hin. lia.
  - destruct (scan_shards_raise _ _ _ _ (λ k, wf_indices (self h) k Hwfh) Hscan)
      as [-> _]. done.
Qed.

(** X7. [rank_index_to_shard_index] checks no bound on [rank_index]: on a
    constructed view it returns a key and an offset whenever the global
    index lies in [[0, total_samples)], whatever the [rank_index]; and
    when the last shard is at least as long as the remainder that is cut
    off, it raises [AssertionError] for every other global index. *)
Theorem X7_shard_index_defined_on_global_range
    (dt : Params → Dataset) sp rank0 ws shuffle0 seed tr v tr' h i :
  __init__ random_shuffle dt sp rank0 ws shuffle0 seed tr = (Ok v, tr') →
  reachable v h →
  let g := total_samples v `div` ws * rank0 + i in
  (0 ≤ g < total_samples v →
     ∃ k r, rank_index_to_shard_index i h = (Ok (k, g - r.1), h)
            ∧ shard_indices v !! k = Some r ∧ in_range g r)
  ∧ (∀ last_key,
       last (shard_keys v) = Some last_key →
       sum_lens (shard_len dt sp) (shard_keys v) `mod` ws
         ≤ shard_len dt sp last_key →
       ¬ (0 ≤ g < total_samples v) →
       rank_index_to_shard_index i h = (Raise AssertionError, h)).
Proof.
  intros Hinit Hreach g.
  destruct (constructed_wf _ _ _ _ _ _ _ _ _ _ Hinit Hreach)
    as (Hwf & Hwfh & Hsame & Hdt & Hsp & Hr & Hws & Hrank & _).
  destruct Hsame as (Hdt' & Hsp' & Hrk & Hw & _ & Hkeys & Hidx & Htot).
  pose proof (wf_world_size _ Hwfh) as Hws1.
  rewrite shard_index_run by lia.
  rewrite <- Htot, <- Hw, <- Hrk, <- Hkeys, <- Hidx, Hws, Hr. fold g.
  split.
  - intros Hg.
    destruct (sample_at_ok v g Hwf Hg)
      as (k & r & _ & _ & Hscan & _ & Hkr & Hin & _).
    exists k, r. by rewrite Hscan.
  - intros last_key Hlast Hlong Hout.
    destruct (scan_shards _ _ g) as [[k off]|e] eqn:Hscan.
    + destruct (scan_shards_sound _ _ _ _ _ Hscan) as (Hk & r & Hkr & Hin & _).
      destruct (ranges_sorted_disjoint_cover v Hwf) as (_ & _ & Hexact).
      exfalso. apply Hout.
      apply (Hexact last_key Hlast) with k r; [|done..].
      by rewrite Hdt, Hsp, Hws.
    + destruct (scan_shards_raise _ _ _ _ (λ k, wf_indices v k Hwf) Hscan)
        as [-> _]. done.
Qed.


End ShardedProofs.

(** * The properties on the concrete registries *)

Section ConcreteChecks.
Import DistributedShardedDataset Examples.

Lemma ex_shuffle_perm seed keys : ex_shuffle seed keys ≡ₚ keys.
Proof.
  unfold ex_shuffle. destruct (Z.even seed); [apply reverse_Permutation|done].
Defined.

Lemma ex_init r :
  0 ≤ r < 4 →
  __init__ ex_shuffle ex_dataset ex_params r 4 false 0 []
  = (Ok (ex_view r), ["a"; "b"; "c"]).
Proof.
  intros Hr. unfold __init__.
  rewrite (proj2 (Z.leb_le _ _)), (proj2 (Z.ltb_lt _ _)) by lia.
  vm_compute. reflexivity.
Qed.

Lemma short_init :
  __init__ ex_shuffle ex_dataset short_params 0 4 false 0 []
  = (Ok short_view, ["a"; "b"]).
Proof. vm_compute. reflexivity. Qed.

(** Bounds on the sizes of the concrete views. *)
Ltac ex_bounds :=
  cbv [ex_view ex_heap short_view total_samples world_size rank self];
  Z.div_mod_to_equations; lia.

Lemma ex_params_nonempty : ex_params ≠ ∅.
Proof. apply insert_non_empty. Defined.

(** C2 on the registry of 10, 10 and 7 samples, rank 1 of 4. *)
Lemma C2_truncation_witness :
  ∃ v tr',
    __init__ ex_shuffle ex_dataset ex_params 1 4 false 0 [] = (Ok v, tr')
    ∧ total_samples v = 24
    ∧ __len__ {| self := v; loads := tr' |}
      = (Ok 6, {| self := v; loads := tr' |}).
Proof.
  destruct (C2_truncation_last_shard_only ex_shuffle ex_shuffle_perm
              ex_dataset ex_params 1 4 false 0 [])
    as (v & tr' & raw & R & last_key & s & Hinit & _ & _ & _ & _ & _ & _
        & _ & _ & _ & Hex).
  - lia.
  - apply ex_params_nonempty.
  - exists v, tr'. split; [exact Hinit|]. apply Hex; [|reflexivity].
    rewrite ex_init in Hinit by lia. injection Hinit as <- _.
    vm_compute. reflexivity.
Defined.

(** C6 at [rank = world_size]. *)
Lemma C6_configuration_errors_witness :
  __init__ ex_shuffle ex_dataset ex_params 4 4 false 0 []
  = (Raise ValueError, []).
Proof.
  apply (C6_configuration_errors ex_shuffle ex_dataset ex_params 4 4 false 0).
  left. lia.
Defined.

(** C4 on rank 1 of 4, after one call of [__getitem__]. *)
Lemma C4_global_index_witness :
  rank_index_to_global_index 2 (__getitem__ 0 (ex_heap 1)).2
  = (Ok 8, (__getitem__ 0 (ex_heap 1)).2).
Proof.
  destruct (C4_global_index_formula ex_shuffle ex_shuffle_perm
              ex_dataset ex_params 1 4 false 0 [] (ex_view 1) ["a"; "b"; "c"]
              (__getitem__ 0 (ex_heap 1)).2 2)
    as (_ & H & _).
  - vm_compute. reflexivity.
  - apply reach_getitem, reach_init.
  - exact H.
Defined.

(** C5 on rank 1 of 4, one past the end. *)
Lemma C5_out_of_range_witness :
  __getitem__ 6 (ex_heap 1) = (Raise IndexError, ex_heap 1).
Proof.
  destruct (C5_out_of_range_raises_IndexError ex_shuffle ex_shuffle_perm
              ex_dataset ex_params 1 4 false 0 [] (ex_view 1) ["a"; "b"; "c"]
              (ex_heap 1) 6)
    as (H & _).
  - vm_compute. reflexivity.
  - apply reach_init.
  - ex_bounds.
  - exact H.
Defined.

(** C9 on rank 3 of 4, last index of the slice. *)
Lemma C9_scan_witness :
  (rank_index_to_shard_index 5 (ex_heap 3)).1 ≠ Raise AssertionError.
Proof.
  destruct (C9_scan_always_finds_range ex_shuffle ex_shuffle_perm
              ex_dataset ex_params 3 4 false 0 [] (ex_view 3) ["a"; "b"; "c"]
              (ex_heap 3) 5)
    as (H & _).
  - vm_compute. reflexivity.
  - apply reach_init.
  - ex_bounds.
  - exact H.
Defined.

(** C3 on ranks 0 and 1 of 4. *)
Lemma C3_bijection_witness :
  ∃ g1 g2 k off r,
    rank_index_to_global_index 5 (ex_heap 0) = (Ok g1, ex_heap 0)
    ∧ rank_index_to_global_index 0 (ex_heap 1) = (Ok g2, ex_heap 1)
    ∧ (g1 = g2 → 0 = 1 ∧ 5 = 0)
    ∧ rank_index_to_shard_index 5 (ex_heap 0) = (Ok (k, off), ex_heap 0)
    ∧ shard_indices (ex_view 0) !! k = Some r
    ∧ 0 ≤ off < r.2 - r.1
    ∧ r.1 + off = g1
    ∧ r.1 + off - total_samples (ex_view 0) `div` 4 * 0 = 5.
Proof.
  apply (C3_rank_index_bijection ex_shuffle ex_shuffle_perm
           ex_dataset ex_params 4 false 0 0 1 [] [] (ex_view 0) (ex_view 1)
           ["a"; "b"; "c"] ["a"; "b"; "c"] (ex_heap 0) (ex_heap 1) 5 0).
  - vm_compute. reflexivity.
  - vm_compute. reflexivity.
  - apply reach_init.
  - apply reach_init.
  - ex_bounds.
  - ex_bounds.
Defined.

(** C10 on rank 1 of 4 at index [-1]: the sample is the last one of
    rank 0. *)
Lemma C10_negative_index_witness :
  (__getitem__ (-1) (ex_heap 1)).1 = Ok 5
  ∧ (__getitem__ 5 (ex_heap 0)).1 = Ok 5.
Proof.
  destruct (C10_negative_index_reads_lower_rank ex_shuffle ex_shuffle_perm
              ex_dataset ex_params 1 4 false 0 [] (ex_view 1) ["a"; "b"; "c"]
              (ex_heap 1) (-1))
    as (x & Hget & Hx & _ & _ & _ & Hlower).
  - vm_compute. reflexivity.
  - apply reach_init.
  - lia.
  - ex_bounds.
  - assert (x = 5) as ->.
    { vm_compute in Hx. by injection Hx. }
    split; [exact Hget|].
    apply (Hlower [] (ex_view 0) ["a"; "b"; "c"] (ex_heap 0)).
    + vm_compute. reflexivity.
    + apply reach_init.
Defined.

(** C8 on rank 1 of 4: indices 0 to 5 are global indices 6 to 11, in the
    shards ["a"] and ["b"]. *)
Lemma C8_monotone_pass_witness :
  ∃ xs ks new_loads h',
    get_all [0; 1; 3; 4; 5] (ex_heap 1) = (Ok xs, h')
    ∧ length xs = 5%nat
    ∧ Sorted Z.le (range_start (ex_view 1) <$> ks)
    ∧ loads h' = loads (ex_heap 1) ++ new_loads
    ∧ NoDup new_loads.
Proof.
  destruct (C8_monotone_pass_loads_each_shard_once ex_shuffle ex_shuffle_perm
              ex_dataset ex_params 1 4 false 0 [] (ex_view 1) ["a"; "b"; "c"]
              (ex_heap 1) [0; 1; 3; 4; 5])
    as [(xs & ks & nl & h' & Hrun & Hlen & _ & Hs & Hl & Hnd & _) _].
  - vm_compute. reflexivity.
  - apply reach_init.
  - repeat constructor.
  - repeat constructor; ex_bounds.
  - by exists xs, ks, nl, h'.
Defined.

(** C1, evaluated on two shards of 2 and 1 samples with [world_size = 4]:
    [__init__] returns a view whose ranges are [(0, 2)] and [(2, 0)] with
    [total_samples = 0], so that the range of the first shard holds the
    indices 0 and 1, which are not in [[0, total_samples)]: the union of
    the ranges is not that interval. *)
Theorem C1_short_last_shard_ranges_exceed_total :
  __init__ ex_shuffle ex_dataset short_params 0 4 false 0 []
  = (Ok short_view, ["a"; "b"])
  ∧ ranges short_view = [(0, 2); (2, 0)]
  ∧ total_samples short_view = 0
  ∧ ¬ (∀ g, (∃ r, r ∈ ranges short_view ∧ in_range g r)
            ↔ 0 ≤ g < total_samples short_view).
Proof.
  split_and!.
  - vm_compute. reflexivity.
  - vm_compute. reflexivity.
  - reflexivity.
  - intros Hcover. destruct (Hcover 0) as [Hin _].
    assert (0 ≤ 0 < total_samples short_view) as [_ Habs]; [|by simpl in Habs].
    apply Hin. exists (0, 2). split.
    + replace (ranges short_view) with [(0, 2); (2, 0)]
        by (vm_compute; reflexivity).
      apply list_elem_of_here.
    + unfold in_range. simpl. lia.
Qed.

(** X1 on the registry of 10, 10 and 7 samples. *)
Lemma X1_init_witness :
  ∃ v,
    __init__ ex_shuffle ex_dataset ex_params 1 4 false 0 []
    = (Ok v, [] ++ shard_keys v)
    ∧ NoDup (shard_keys v)
    ∧ _current_shard_key v = None.
Proof.
  destruct (X1_init_constructs_each_shard_once ex_shuffle ex_shuffle_perm
              ex_dataset ex_params 1 4 false 0 [])
    as (v & Hinit & Hnd & _ & _ & Hcur & _).
  - lia.
  - apply ex_params_nonempty.
  - by exists v.
Defined.

(** X2 on the registry of 10, 10 and 7 samples. *)
Lemma X2_len_witness :
  ∃ v tr',
    __init__ ex_shuffle ex_dataset ex_params 1 4 false 0 [] = (Ok v, tr')
    ∧ 0 ≤ sum_lens (shard_len ex_dataset ex_params) (shard_keys v)
          - total_samples v < 4.
Proof.
  destruct (X2_len_is_floor_of_sum ex_shuffle ex_shuffle_perm
              ex_dataset ex_params 1 4 false 0 [])
    as (v & tr' & Hinit & _ & _ & _ & Hdrop).
  - lia.
  - apply ex_params_nonempty.
  - by exists v, tr'.
Defined.

(** X3 at global index 13: rank 2, index 1. *)
Lemma X3_global_index_witness :
  0 ≤ 13 `div` (total_samples (ex_view 0) `div` 4) < 4
  ∧ ∃ x, sample_at (ex_view 0) 13 = Ok x
         ∧ (__getitem__ 1 (ex_heap 2)).1 = Ok x.
Proof.
  destruct (X3_global_index_served_by_one_rank ex_shuffle ex_shuffle_perm
              ex_dataset ex_params 0 4 false 0 [] (ex_view 0)
              ["a"; "b"; "c"] 13)
    as (Hrank & _ & _ & x & Hx & Hget).
  - vm_compute. reflexivity.
  - ex_bounds.
  - split; [exact Hrank|]. exists x. split; [exact Hx|].
    apply (Hget [] (ex_view 2) ["a"; "b"; "c"] (ex_heap 2)).
    + vm_compute. reflexivity.
    + apply reach_init.
Defined.

(** X4 on rank 1 of 4 at index 0. *)
Lemma X4_getitem_witness :
  ∃ k r params x,
    shard_indices (ex_view 1) !! k = Some r
    ∧ ex_params !! k = Some params
    ∧ (__getitem__ 0 (ex_heap 1)).1 = Ok x
    ∧ _current_shard_key (self (__getitem__ 0 (ex_heap 1)).2) = Some k.
Proof.
  destruct (X4_getitem_returns_item_and_caches_shard ex_shuffle
              ex_shuffle_perm ex_dataset ex_params 1 4 false 0 []
              (ex_view 1) ["a"; "b"; "c"] (ex_heap 1) 0)
    as (k & r & params & x & Hr & _ & Hp & _ & Hget & Hcur & _).
  - vm_compute. reflexivity.
  - apply reach_init.
  - ex_bounds.
  - by exists k, r, params, x.
Defined.


(** X6 on rank 1 of 4 at index [-7]: global index [-1]. *)
Lemma X6_negative_global_index_witness :
  __getitem__ (-7) (ex_heap 1) = (Raise AssertionError, ex_heap 1).
Proof.
  destruct (X6_negative_global_index_raises_AssertionError ex_shuffle
              ex_shuffle_perm ex_dataset ex_params 1 4 false 0 []
              (ex_view 1) ["a"; "b"; "c"] (ex_heap 1) (-7))
    as [H _].
  - vm_compute. reflexivity.
  - apply reach_init.
  - ex_bounds.
  - exact H.
Defined.

(** X7 on rank 1 of 4: index 10 is global index 16, in the slice of
    rank 2; index 18 is global index 24, past the end. *)
Lemma X7_shard_index_witness :
  (∃ k (r : Z * Z), rank_index_to_shard_index 10 (ex_heap 1)
                    = (Ok (k, 16 - r.1), ex_heap 1))
  ∧ rank_index_to_shard_index 18 (ex_heap 1)
    = (Raise AssertionError, ex_heap 1).
Proof.
  split.
  - destruct (X7_shard_index_defined_on_global_range ex_shuffle
                ex_shuffle_perm ex_dataset ex_params 1 4 false 0 []
                (ex_view 1) ["a"; "b"; "c"] (ex_heap 1) 10)
      as [Hin _].
    + vm_compute. reflexivity.
    + apply reach_init.
    + destruct Hin as (k & r & Hrun & _); [ex_bounds|].
      exists k, r. exact Hrun.
  - destruct (X7_shard_index_defined_on_global_range ex_shuffle
                ex_shuffle_perm ex_dataset ex_params 1 4 false 0 []
                (ex_view 1) ["a"; "b"; "c"] (ex_heap 1) 18)
      as [_ Hout].
    + vm_compute. reflexivity.
    + apply reach_init.
    + apply (Hout "c").
      * reflexivity.
      * vm_compute. discriminate.
      * ex_bounds.
Defined.


End ConcreteChecks.

(** * Properties of [ResumableSequentialSampler] *)

Section SamplerProofs.
Import ResumableSequentialSampler.

Implicit Types (s : Sampler) (f : Frame).

Lemma next_yields f s :
  f ≠ Finished → pending f s < data_length s →
  ∃ s', next f s = (Some (pending f s), Suspended, s')
        ∧ pending Suspended s' = pending f s + 1
        ∧ data_length s' = data_length s
        ∧ start_index s' = start_index s.
Proof.
  intros Hf Hlt. destruct f; [| |done]; simpl in *; unfold loop_head; simpl.
  - rewrite (proj2 (Z.ltb_lt _ _)) by done. by exists s.
  - rewrite (proj2 (Z.ltb_lt _ _)) by done. by exists (incr_index s).
Qed.

Lemma next_stops f s :
  f ≠ Finished → pending f s = data_length s →
  ∃ s', next f s = (None, Finished, s') ∧ s' = exhausted s.
Proof.
  intros Hf Heq. destruct f; [| |done]; simpl in *; unfold loop_head; simpl.
  - rewrite (proj2 (Z.ltb_ge _ _)) by lia. exists s. split; [done|].
    destruct s. unfold exhausted. simpl in *. by subst.
  - rewrite (proj2 (Z.ltb_ge _ _)) by lia. exists (incr_index s).
    split; [done|]. unfold exhausted, incr_index. simpl. by rewrite Heq.
Qed.

(** With more fuel than values left, [drain] returns them all, in order,
    and leaves the sampler exhausted. *)
Lemma drain_run n f s fuel :
  f ≠ Finished → pending f s + Z.of_nat n = data_length s → (n < fuel)%nat →
  drain fuel f s = Some (seqZ (pending f s) (Z.of_nat n), exhausted s).
Proof.
  revert f s fuel. induction n as [|n IH]; intros f s fuel Hf Hp Hfuel;
    (destruct fuel as [|fuel]; [lia|]); simpl drain.
  - destruct (next_stops f s Hf) as (s' & -> & ->); [lia|]. done.
  - destruct (next_yields f s Hf) as (s' & -> & Hp' & Hdl & Hsi); [lia|].
    rewrite (IH Suspended s' fuel) by (done || lia).
    rewrite (seqZ_cons _ (Z.of_nat (S n))) by lia.
    rewrite Hp'. unfold exhausted. rewrite Hdl, Hsi.
    do 4 f_equal. lia.
Qed.

(** [n] calls of [next], while that many values are left, yield the next
    [n] values and leave the following one pending. *)
Lemma consume_run n f s :
  f ≠ Finished → pending f s + Z.of_nat n ≤ data_length s →
  ∃ f' s',
    consume n f s = (seqZ (pending f s) (Z.of_nat n), f', s')
    ∧ f' ≠ Finished
    ∧ pending f' s' = pending f s + Z.of_nat n
    ∧ data_length s' = data_length s
    ∧ start_index s' = start_index s.
Proof.
  revert f s. induction n as [|n IH]; intros f s Hf Hp; simpl consume.
  - exists f, s. split_and!; [done|done|lia|done|done].
  - destruct (next_yields f s Hf) as (s1 & -> & Hp1 & Hdl1 & Hsi1); [lia|].
    destruct (IH Suspended s1) as (f' & s' & -> & Hf' & Hp' & Hdl' & Hsi');
      [done|lia|].
    exists f', s'. rewrite (seqZ_cons _ (Z.of_nat (S n))) by lia.
    rewrite Hp1. split_and!; [|done|lia|congruence|congruence].
    do 4 f_equal. lia.
Qed.

Lemma seqZ_sorted m n : Sorted Z.lt (seqZ m n).
Proof.
  destruct (decide (n ≤ 0)) as [Hn|Hn]; [rewrite seqZ_nil by done; constructor|].
  rewrite <- (Z2Nat.id n) by lia. generalize (Z.to_nat n) as k. clear n Hn.
  intros k. revert m. induction k as [|k IH]; intros m; [constructor|].
  rewrite seqZ_cons by lia. replace (Z.pred (Z.of_nat (S k))) with (Z.of_nat k) by lia.
  constructor; [apply IH|].
  destruct k as [|k]; [constructor|].
  rewrite seqZ_cons by lia. constructor. lia.
Qed.

(** C7. A sampler over [length] items constructed with
    [start_index = v], [0 <= v <= length], yields exactly
    [v, v+1, ..., length-1], strictly ascending, and then stops; this is
    what a sampler started at 0 yields after its first [v] values, both
    as the rest of its list and as what its generator still yields once
    [v] values have been taken from it; and [__len__] is
    [length - start_index]. *)
Theorem C7_resumable_sampler_suffix
    {A} (data_source : list A) (v : Z) :
  let n := Z.of_nat (length data_source) in
  0 ≤ v ≤ n →
  let s := __init__ data_source v in
  let s0 := __init__ data_source 0 in
  (∀ fuel, (Z.to_nat (n - v) < fuel)%nat →
     drain fuel Created s = Some (seqZ v (n - v), exhausted s))
  ∧ Sorted Z.lt (seqZ v (n - v))
  ∧ (∀ fuel, (Z.to_nat n < fuel)%nat →
       drain fuel Created s0 = Some (seqZ 0 n, exhausted s0))
  ∧ seqZ v (n - v) = drop (Z.to_nat v) (seqZ 0 n)
  ∧ (∃ f' s',
       consume (Z.to_nat v) Created s0 = (seqZ 0 v, f', s')
       ∧ pending f' s' = v
       ∧ ∀ fuel, (Z.to_nat (n - v) < fuel)%nat →
           ∃ s'', drain fuel f' s' = Some (seqZ v (n - v), s''))
  ∧ __len__ s = n - start_index s
  ∧ start_index s = v.
Proof.
  intros n Hv s s0. split_and!.
  - intros fuel Hfuel.
    pose proof (drain_run (Z.to_nat (n - v)) Created s fuel) as Hrun.
    simpl in Hrun. rewrite Z2Nat.id in Hrun by lia.
    apply Hrun; [done|lia|done].
  - apply seqZ_sorted.
  - intros fuel Hfuel.
    pose proof (drain_run (Z.to_nat n) Created s0 fuel) as Hrun.
    simpl in Hrun. rewrite Z2Nat.id in Hrun by lia.
    apply Hrun; [done|lia|done].
  - replace n with (v + (n - v)) at 2 by lia.
    rewrite seqZ_app by lia.
    rewrite drop_app_length'; [done|]. by rewrite length_seqZ.
  - destruct (consume_run (Z.to_nat v) Created s0)
      as (f' & s' & Hc & Hf' & Hp' & Hdl' & _); [done|simpl; lia|].
    simpl in Hc, Hp', Hdl'. rewrite Z2Nat.id in Hc, Hp' by lia.
    exists f', s'. split_and!; [done|lia|].
    intros fuel Hfuel. exists (exhausted s').
    pose proof (drain_run (Z.to_nat (n - v)) f' s' fuel Hf') as Hrun.
    rewrite Z2Nat.id in Hrun by lia.
    replace (pending f' s') with v in Hrun by lia.
    apply Hrun; [|done]. rewrite Hdl'. fold n. lia.
  - done.
  - done.
Qed.

(** C7 on ten items resumed at 4. *)
Lemma C7_resumable_sampler_witness :
  drain 7 Created (__init__ (replicate 10 tt) 4)
  = Some ([4; 5; 6; 7; 8; 9], exhausted (__init__ (replicate 10 tt) 4))
  ∧ __len__ (__init__ (replicate 10 tt) 4) = 6.
Proof.
  destruct (C7_resumable_sampler_suffix (replicate 10 tt) 4)
    as (Hdrain & _ & _ & _ & _ & Hlen & _).
  - simpl. lia.
  - split; [apply (Hdrain 7%nat); simpl; lia|exact Hlen].
Defined.

(** ** The sampler outside a single fresh pass *)

(** A generator that returns leaves the index at or past the length, and
    never touches the length or the start index. *)
Lemma drain_final fuel f s l s' :
  drain fuel f s = Some (l, s') → f ≠ Finished →
  data_length s' ≤ index s'
  ∧ data_length s' = data_length s ∧ start_index s' = start_index s.
Proof.
  revert f s l s'. induction fuel as [|fuel IH]; intros f s l s'; [done|].
  simpl drain. intros Hdrain Hf.
  assert (Hhead : ∀ s0, data_length s0 = data_length s →
                        start_index s0 = start_index s →
                        match loop_head s0 with
                        | (None, _, s1) => Some ([], s1)
                        | (Some i, f', s1) =>
                            match drain fuel f' s1 with
                            | Some (l0, s2) => Some (i :: l0, s2)
                            | None => None
                            end
                        end = Some (l, s') →
                        data_length s' ≤ index s'
                        ∧ data_length s' = data_length s
                        ∧ start_index s' = start_index s).
  { intros s0 Hdl Hsi. unfold loop_head.
    destruct (index s0 <? data_length s0) eqn:Hlt.
    - destruct (drain fuel Suspended s0) as [[l0 s2]|] eqn:Hrec; [|done].
      intros [= <- <-].
      destruct (IH _ _ _ _ Hrec) as (? & ? & ?); [done|].
      split_and!; congruence.
    - intros [= <- <-]. apply Z.ltb_ge in Hlt. done. }
  destruct f; [| |done]; simpl in Hdrain.
  - by apply (Hhead s).
  - by apply (Hhead (incr_index s)).
Qed.

Lemma drain_at_end fuel s :
  (0 < fuel)%nat → data_length s ≤ index s →
  drain fuel Created s = Some ([], s).
Proof.
  intros Hfuel Hend. destruct fuel as [|fuel]; [lia|]. simpl.
  unfold loop_head. by rewrite (proj2 (Z.ltb_ge _ _)).
Qed.

(** After at least one value is taken, the generator is suspended at the
    [yield]. *)
Lemma consume_suspended n f s :
  f ≠ Finished → pending f s + Z.of_nat (S n) ≤ data_length s →
  (consume (S n) f s).1.2 = Suspended.
Proof.
  revert f s. induction n as [|n IH]; intros f s Hf Hp.
  - simpl consume. destruct (next_yields f s Hf) as (s1 & -> & _); [lia|].
    done.
  - change (consume (S (S n)) f s)
      with (match next f s with
            | (None, f', s') => ([], f', s')
            | (Some i, f', s') =>
                let '(l, f'', s'') := consume (S n) f' s' in (i :: l, f'', s'')
            end).
    destruct (next_yields f s Hf) as (s1 & -> & Hp1 & Hdl1 & _); [lia|].
    specialize (IH Suspended s1).
    destruct (consume (S n) Suspended s1) as [[l f''] s''].
    simpl in *. apply IH; [done|lia].
Qed.

(** X9. A sampler is spent by one full iteration: once a generator of it
    has returned, every later generator of the same sampler yields
    nothing, while [__len__] still returns what it returned at the
    start. *)
Theorem X9_exhausted_sampler_yields_nothing
    {A} (data_source : list A) (v : Z) (fuel fuel' : nat) l s' :
  drain fuel Created (__init__ data_source v) = Some (l, s') →
  (0 < fuel')%nat →
  drain fuel' Created s' = Some ([], s')
  ∧ __len__ s' = __len__ (__init__ data_source v).
Proof.
  intros Hdrain Hfuel.
  destruct (drain_final _ _ _ _ _ Hdrain) as (Hend & Hdl & Hsi); [done|].
  split; [by apply drain_at_end|].
  unfold __len__. by rewrite Hdl, Hsi.
Qed.

(** X10. The index is advanced only when a generator is resumed: after
    [n >= 1] values have been taken from the generator of a fresh sampler,
    a second generator of the same sampler yields the last value taken
    once more and goes on from there. *)
Theorem X10_second_generator_repeats_last_value
    {A} (data_source : list A) (v : Z) (n : nat) :
  let len := Z.of_nat (length data_source) in
  (0 < n)%nat → v + Z.of_nat n ≤ len →
  ∃ f' s',
    consume n Created (__init__ data_source v) = (seqZ v (Z.of_nat n), f', s')
    ∧ index s' = v + Z.of_nat n - 1
    ∧ ∀ fuel, (Z.to_nat (len - index s') < fuel)%nat →
        drain fuel Created s'
        = Some (seqZ (v + Z.of_nat n - 1) (len - (v + Z.of_nat n - 1)),
                exhausted s').
Proof.
  intros len Hn Hlen. set (s := __init__ data_source v).
  destruct (consume_run n Created s) as (f' & s' & Hc & Hf' & Hp' & Hdl' & _);
    [done|simpl; lia|].
  destruct n as [|n]; [lia|].
  pose proof (consume_suspended n Created s) as Hsusp.
  rewrite Hc in Hsusp. simpl in Hsusp, Hc, Hp', Hdl'.
  rewrite Hsusp in Hp', Hc by (done || lia). simpl in Hp'.
  exists Suspended, s'. split; [exact Hc|].
  assert (Hidx : index s' = v + Z.of_nat (S n) - 1) by lia.
  split; [done|]. intros fuel Hfuel.
  pose proof (drain_run (Z.to_nat (len - index s')) Created s' fuel) as Hrun.
  simpl in Hrun. rewrite Z2Nat.id in Hrun by lia.
  rewrite <- Hidx. apply Hrun; [done| |done]. rewrite Hdl'. fold len. lia.
Qed.

(** X11. [start_index] is not checked against the length: a sampler
    constructed with [start_index] past the length yields nothing, and
    its [__len__] is negative. *)
Theorem X11_start_past_end_yields_nothing
    {A} (data_source : list A) (v : Z) (fuel : nat) :
  Z.of_nat (length data_source) < v → (0 < fuel)%nat →
  drain fuel Created (__init__ data_source v)
  = Some ([], __init__ data_source v)
  ∧ __len__ (__init__ data_source v) < 0.
Proof.
  intros Hv Hfuel. split.
  - apply drain_at_end; [done|]. simpl. lia.
  - unfold __len__. simpl. lia.
Qed.

(** X12. [start_index] is not checked against zero either: a sampler
    constructed with a negative [start_index] yields the negative values
    [start_index, ..., -1] before [0, ..., length - 1]. *)
Theorem X12_negative_start_yields_negative_indices
    {A} (data_source : list A) (v : Z) (fuel : nat) :
  let len := Z.of_nat (length data_source) in
  v < 0 → (Z.to_nat (len - v) < fuel)%nat →
  drain fuel Created (__init__ data_source v)
  = Some (seqZ v (- v) ++ seqZ 0 len, exhausted (__init__ data_source v)).
Proof.
  intros len Hv Hfuel.
  pose proof (drain_run (Z.to_nat (len - v)) Created
                (__init__ data_source v) fuel) as Hrun.
  simpl in Hrun. rewrite Z2Nat.id in Hrun by lia.
  rewrite Hrun by (done || lia).
  replace (len - v) with (- v + len) by lia.
  rewrite seqZ_app by lia. by replace (v + - v) with 0 by lia.
Qed.

(** X9 on ten items resumed at 4. *)
Lemma X9_exhausted_sampler_witness :
  drain 1 Created (exhausted (__init__ (replicate 10 tt) 4))
  = Some ([], exhausted (__init__ (replicate 10 tt) 4)).
Proof.
  destruct (X9_exhausted_sampler_yields_nothing (replicate 10 tt) 4 7 1
              [4; 5; 6; 7; 8; 9] (exhausted (__init__ (replicate 10 tt) 4)))
    as [H _].
  - vm_compute. reflexivity.
  - lia.
  - exact H.
Defined.

(** X10 on ten items after three values were taken: the second generator
    starts at 2 again. *)
Lemma X10_second_generator_witness :
  ∃ f' s',
    consume 3 Created (__init__ (replicate 10 tt) 0) = ([0; 1; 2], f', s')
    ∧ drain 9 Created s' = Some ([2; 3; 4; 5; 6; 7; 8; 9], exhausted s').
Proof.
  destruct (X10_second_generator_repeats_last_value (replicate 10 tt) 0 3)
    as (f' & s' & Hc & Hidx & Hdrain).
  - lia.
  - simpl. lia.
  - exists f', s'. split; [exact Hc|].
    rewrite (Hdrain 9%nat) by (rewrite Hidx; simpl; lia). reflexivity.
Defined.

(** X11 on three items started at 5. *)
Lemma X11_start_past_end_witness :
  drain 1 Created (__init__ (replicate 3 tt) 5)
  = Some ([], __init__ (replicate 3 tt) 5)
  ∧ __len__ (__init__ (replicate 3 tt) 5) < 0.
Proof.
  apply (X11_start_past_end_yields_nothing (replicate 3 tt) 5 1);
    [simpl; lia|lia].
Defined.

(** X12 on three items started at [-2]. *)
Lemma X12_negative_start_witness :
  drain 6 Created (__init__ (replicate 3 tt) (-2))
  = Some ([-2; -1; 0; 1; 2], exhausted (__init__ (replicate 3 tt) (-2))).
Proof.
  apply (X12_negative_start_yields_negative_indices (replicate 3 tt) (-2) 6);
    [lia|simpl; lia].
Defined.

End SamplerProofs.

(** * Properties of [llm.trainers.gpt.data] *)

Section GptDataProofs.
Import GptData.
Context {T : Type}.

Implicit Types (t : list T) (examples : Dict (list (list T))).

(** ** Slices, ranges and dicts *)

Lemma py_slice_nonneg {A} (l : list A) (i b : Z) :
  0 ≤ i → 0 ≤ b →
  py_slice l i (i + b) = take (Z.to_nat b) (drop (Z.to_nat i) l).
Proof.
  intros Hi Hb. unfold py_slice, slice_index.
  rewrite !(proj2 (Z.ltb_ge _ _)) by lia.
  set (n := Z.of_nat (length l)).
  destruct (decide (n ≤ i)) as [Hge|Hlt].
  - rewrite !drop_ge by lia. by rewrite !take_nil.
  - rewrite (Z.min_l i n) by lia.
    destruct (decide (i + b ≤ n)) as [Hin|Hout].
    + rewrite Z.min_l by lia. do 2 f_equal. lia.
    + rewrite Z.min_r by lia.
      rewrite !take_ge; [done|rewrite length_drop; lia..].
Qed.

Lemma py_range_multiples (bs q : Z) :
  0 < bs → 0 ≤ q →
  py_range 0 (q * bs) bs = Return ((λ j, bs * j) <$> seqZ 0 q).
Proof.
  intros Hbs Hq. unfold py_range.
  rewrite (proj2 (Z.eqb_neq _ _)), (proj2 (Z.ltb_lt _ _)) by lia.
  replace (q * bs - 0 + bs - 1) with (bs - 1 + q * bs) by lia.
  rewrite Z.div_add by lia. rewrite Z.div_small by lia. simpl.
  f_equal.
Qed.

Lemma py_range_backwards (total bs : Z) :
  bs < 0 → 0 ≤ total → py_range 0 total bs = Return [].
Proof.
  intros Hbs Htot. unfold py_range.
  rewrite (proj2 (Z.eqb_neq _ _)), (proj2 (Z.ltb_ge _ _)) by lia.
  rewrite seqZ_nil; [done|].
  assert ((0 - total - bs - 1) `div` (- bs) < 1); [|lia].
  apply Z.div_lt_upper_bound; lia.
Qed.

Lemma dict_get_fmap {V W} (f : V → W) (d : Dict V) k :
  dict_get ((λ kv, (kv.1, f kv.2)) <$> d) k
  = match dict_get d k with
    | Return v => Return (f v)
    | Raises e => Raises e
    end.
Proof.
  induction d as [|[k' v] d IH]; simpl; [done|].
  by destruct (decide (k' = k)).
Qed.

Lemma dict_get_set {V} (d : Dict V) k v k' :
  dict_get (dict_set d k v) k'
  = if decide (k = k') then Return v else dict_get d k'.
Proof.
  induction d as [|[k0 v0] d IH]; simpl.
  - by destruct (decide (k = k')).
  - destruct (decide (k0 = k)) as [->|Hne]; simpl.
    + by destruct (decide (k = k')).
    + destruct (decide (k0 = k')) as [->|Hne'].
      * by rewrite decide_False by done.
      * done.
Qed.

Lemma dict_keys_set {V} (d : Dict V) k v :
  dict_keys (dict_set d k v)
  = if decide (k ∈ dict_keys d) then dict_keys d else dict_keys d ++ [k].
Proof.
  unfold dict_keys. induction d as [|[k0 v0] d IH].
  - destruct (decide (k ∈ [].*1)) as [Hin|_]; [|done].
    by apply elem_of_nil in Hin.
  - cbn [dict_set]. destruct (decide (k0 = k)) as [->|Hne].
    + rewrite decide_True; [done|]. rewrite fmap_cons. apply list_elem_of_here.
    + rewrite !fmap_cons, IH. cbn [fst].
      destruct (decide (k ∈ d.*1)) as [Hin|Hnotin].
      * rewrite decide_True; [done|by apply list_elem_of_further].
      * rewrite decide_False; [done|].
        intros [->|?]%elem_of_cons; done.
Qed.

Lemma dict_get_Return_iff {V} (d : Dict V) k :
  k ∈ dict_keys d ↔ ∃ v, dict_get d k = Return v.
Proof.
  unfold dict_keys. induction d as [|[k0 v0] d IH]; simpl.
  - split; [by intros ?%elem_of_nil|by intros [? ?]].
  - rewrite elem_of_cons. destruct (decide (k0 = k)) as [->|Hne].
    + split; [eauto|by left].
    + rewrite <- IH. naive_solver.
Qed.

Lemma dict_get_Raises {V} (d : Dict V) k e :
  dict_get d k = Raises e → e = KeyError ∧ k ∉ dict_keys d.
Proof.
  intros Hget. split.
  - induction d as [|[k0 v0] d IH]; simpl in Hget; [congruence|].
    destruct (decide (k0 = k)); [done|by apply IH].
  - intros [v Hv]%dict_get_Return_iff. congruence.
Qed.

(** ** Blocks *)





Lemma blocks_of_forward t (bs q : Z) :
  0 < bs → 0 ≤ q →
  blocks_of t (q * bs) bs = Return (blocks (Z.to_nat bs) (Z.to_nat q) t).
Proof.
  intros Hbs Hq. unfold blocks_of. rewrite py_range_multiples by done.
  simpl. f_equal. unfold blocks, seqZ.
  rewrite <- !list_fmap_compose. apply list_fmap_ext. intros _ j _. simpl.
  replace (bs * (Z.of_nat j + 0) + bs) with (bs * Z.of_nat j + bs) by lia.
  replace (bs * (Z.of_nat j + 0)) with (bs * Z.of_nat j) by lia.
  rewrite py_slice_nonneg by lia. do 2 f_equal. lia.
Qed.

Lemma blocks_of_backward t (total bs : Z) :
  bs < 0 → 0 ≤ total → blocks_of t total bs = Return [].
Proof.
  intros Hbs Htot. unfold blocks_of. by rewrite py_range_backwards.
Qed.

Lemma split_columns_forward (items : Dict (list T)) (bs q : Z) :
  0 < bs → 0 ≤ q →
  split_columns items (q * bs) bs
  = Return ((λ kv, (kv.1, blocks (Z.to_nat bs) (Z.to_nat q) kv.2)) <$> items).
Proof.
  intros Hbs Hq. induction items as [|[k t] items IH]; simpl; [done|].
  rewrite blocks_of_forward by done. simpl. by rewrite IH.
Qed.

Lemma split_columns_backward (items : Dict (list T)) (total bs : Z) :
  bs < 0 → 0 ≤ total →
  split_columns items total bs = Return ((λ kv, (kv.1, [])) <$> items).
Proof.
  intros Hbs Htot. induction items as [|[k t] items IH]; simpl; [done|].
  rewrite blocks_of_backward by done. simpl. by rewrite IH.
Qed.

(** ** [group_texts] *)

(** What a returning call went through. *)
Lemma group_texts_inv examples (bs : Z) result :
  group_texts examples bs = Return result →
  ∃ k0 v0 rest cols labels,
    examples = (k0, v0) :: rest
    ∧ bs ≠ 0
    ∧ split_columns ((λ kv, (kv.1, concat kv.2)) <$> examples)
        (Z.of_nat (length (concat v0)) `div` bs * bs) bs
      = Return cols
    ∧ dict_get cols "input_ids" = Return labels
    ∧ result = dict_set cols "labels" labels.
Proof.
  unfold group_texts. destruct examples as [|[k0 v0] rest]; [done|].
  cbn [dict_keys fmap list_fmap next_iter and_then fst snd dict_get].
  rewrite decide_True by done. cbn [and_then].
  unfold floordiv. destruct (bs =? 0) eqn:Hbs; [done|]. cbn [and_then].
  apply Z.eqb_neq in Hbs.
  destruct (split_columns _ _ _) as [cols|e] eqn:Hcols; [|done].
  cbn [and_then].
  destruct (dict_get cols "input_ids") as [labels|e] eqn:Hlabels; [|done].
  cbn [and_then]. intros [= <-].
  exists k0, v0, rest, cols, labels. done.
Qed.


Lemma group_texts_unfold k0 (v0 : list (list T)) rest (bs : Z) :
  let examples := (k0, v0) :: rest in
  group_texts examples bs
  = do q <- floordiv (Z.of_nat (length (concat v0))) bs;
    do result <- split_columns ((λ kv, (kv.1, concat kv.2)) <$> examples)
                   (q * bs) bs;
    do labels <- dict_get result "input_ids";
    Return (dict_set result "labels" labels).
Proof.
  intros examples. unfold group_texts, examples.
  cbn [dict_keys fmap list_fmap next_iter and_then fst snd dict_get].
  by rewrite decide_True by done.
Qed.

(** For every [block_size] but 0 the columns are split, each by the same
    function of the concatenated column. *)
Lemma split_columns_total examples (n0 bs : Z) :
  bs ≠ 0 → 0 ≤ n0 →
  ∃ f : list T → list (list T),
    split_columns ((λ kv, (kv.1, concat kv.2)) <$> examples)
      (n0 `div` bs * bs) bs
    = Return ((λ kv, (kv.1, f (concat kv.2))) <$> examples).
Proof.
  intros Hbs Hn0. destruct (decide (0 < bs)) as [Hpos|Hneg].
  - eexists. rewrite split_columns_forward by (lia || (apply Z.div_pos; lia)).
    by rewrite <- list_fmap_compose.
  - exists (λ _, []).
    rewrite split_columns_backward, <- list_fmap_compose; [done|lia|].
    pose proof (Z.div_mod n0 bs Hbs).
    pose proof (Z.mod_neg_bound n0 bs ltac:(lia)). nia.
Qed.



(** X15. Whenever [group_texts] returns, the result has a ["labels"]
    column equal to its ["input_ids"] column, every other column of the
    input keeps its key and its place, and ["labels"] is added last
    unless the input had that key, whose column is then replaced. *)
Theorem X15_group_texts_labels_copy_input_ids examples (bs : Z) result :
  group_texts examples bs = Return result →
  (∃ cs, dict_get result "labels" = Return cs
         ∧ dict_get result "input_ids" = Return cs)
  ∧ dict_keys result
    = if decide ("labels" ∈ dict_keys examples) then dict_keys examples
      else dict_keys examples ++ ["labels"].
Proof.
  intros Hrun.
  destruct (group_texts_inv _ _ _ Hrun)
    as (k0 & v0 & rest & cols & labels & Hex & Hbs & Hcols & Hlabels & ->).
  assert (Hkeys : dict_keys cols = dict_keys examples).
  { clear -Hcols. revert cols Hcols.
    generalize (Z.of_nat (length (concat v0)) `div` bs * bs) as total.
    intros total. induction examples as [|[k v] examples IH]; intros cols.
    - simpl. by intros [= <-].
    - simpl. destruct (blocks_of _ _ _) as [c|]; [|done]. simpl.
      destruct (split_columns _ _ _) as [cols'|]; [|done]. simpl.
      intros [= <-]. unfold dict_keys in *. simpl. f_equal. by apply IH. }
  split.
  - exists labels. rewrite !dict_get_set.
    rewrite decide_True by done. by rewrite decide_False by done.
  - by rewrite dict_keys_set, Hkeys.
Qed.

(** X16. [group_texts] raises [StopIteration] on a batch without
    columns, [ZeroDivisionError] on a batch with columns when
    [block_size = 0], and [KeyError] for any other [block_size] when the
    batch has no ["input_ids"] column. *)
Theorem X16_group_texts_errors examples (bs : Z) :
  (examples = [] → group_texts examples bs = Raises StopIteration)
  ∧ (examples ≠ [] → bs = 0 →
     group_texts examples bs = Raises ZeroDivisionError)
  ∧ (examples ≠ [] → bs ≠ 0 → "input_ids" ∉ dict_keys examples →
     group_texts examples bs = Raises KeyError).
Proof.
  split_and!.
  - by intros ->.
  - intros Hne ->. destruct examples as [|[k0 v0] rest]; [done|].
    unfold group_texts.
    cbn [dict_keys fmap list_fmap next_iter and_then fst snd dict_get].
    by rewrite decide_True by done.
  - intros Hne Hbs Hids. destruct examples as [|[k0 v0] rest]; [done|].
    rewrite group_texts_unfold. unfold floordiv.
    rewrite (proj2 (Z.eqb_neq _ _)) by done. cbn [and_then].
    destruct (split_columns_total ((k0, v0) :: rest)
                (Z.of_nat (length (concat v0))) bs Hbs) as [f ->]; [lia|].
    cbn [and_then]. rewrite (dict_get_fmap (λ v, f (concat v))).
    destruct (dict_get ((k0, v0) :: rest) "input_ids") as [ids|e] eqn:Hget.
    + exfalso. apply Hids. apply dict_get_Return_iff. eauto.
    + by destruct (dict_get_Raises _ _ _ Hget) as [-> _].
Qed.

(** X17. When the first column has fewer than [block_size] tokens, or
    [block_size] is negative, [group_texts] on a batch with an
    ["input_ids"] column returns, not an empty dict, but every column of
    the batch, and ["labels"], with no block. *)
Theorem X17_group_texts_short_batch_keeps_empty_columns
    k0 (v0 : list (list T)) rest (bs : Z) :
  let examples := (k0, v0) :: rest in
  bs ≠ 0 → bs < 0 ∨ Z.of_nat (length (concat v0)) < bs →
  "input_ids" ∈ dict_keys examples →
  ∃ result,
    group_texts examples bs = Return result
    ∧ result ≠ []
    ∧ (∀ k, k ∈ dict_keys examples → dict_get result k = Return [])
    ∧ dict_get result "labels" = Return [].
Proof.
  intros examples Hbs Hshort Hids.
  set (n0 := Z.of_nat (length (concat v0))).
  assert (Hcols : split_columns ((λ kv, (kv.1, concat kv.2)) <$> examples)
                    (n0 `div` bs * bs) bs
                  = Return ((λ kv, (kv.1, [])) <$> examples)).
  { destruct (decide (0 < bs)) as [Hpos|Hneg].
    - assert (Hq : n0 `div` bs = 0) by (apply Z.div_small; lia).
      rewrite Hq at 1. replace 0 with (0 * bs) at 1 by lia.
      rewrite split_columns_forward, <- list_fmap_compose by lia. done.
    - rewrite split_columns_backward, <- list_fmap_compose; [done|lia|].
      pose proof (Z.div_mod n0 bs Hbs).
      pose proof (Z.mod_neg_bound n0 bs ltac:(lia)). subst n0. nia. }
  assert (Hget : ∀ k, k ∈ dict_keys examples →
            dict_get ((λ kv, (kv.1, @nil (list T))) <$> examples) k
            = Return []).
  { intros k [v Hv]%dict_get_Return_iff.
    by rewrite (dict_get_fmap (λ _, [])), Hv. }
  exists (dict_set ((λ kv, (kv.1, [])) <$> examples) "labels" []).
  split_and!.
  - unfold examples at 1. rewrite group_texts_unfold. unfold floordiv.
    rewrite (proj2 (Z.eqb_neq _ _)) by done. cbn [and_then].
    fold examples n0. rewrite Hcols. cbn [and_then]. by rewrite Hget.
  - subst examples. simpl. by destruct (decide (k0 = "labels")).
  - intros k Hk. rewrite dict_get_set.
    destruct (decide ("labels" = k)); [done|by apply Hget].
  - rewrite dict_get_set. by rewrite decide_True.
Qed.

(** ** The block size of [preprocess_datasets] *)

(** X18. A [block_size] passed to [preprocess_datasets] is cut to the
    [model_max_length] of the tokenizer, with a warning exactly when it
    was larger. Without one, the block size is 1024 whatever the
    tokenizer allows: it is above [model_max_length] for every tokenizer
    with a smaller limit, and no warning is logged then. *)
Theorem X18_choose_block_size_bounds (model_max_length : Z) :
  (∀ block_size,
     let '(b, log) := choose_block_size (Some block_size) model_max_length in
     b ≤ model_max_length ∧ b ≤ block_size
     ∧ (b = block_size ∨ b = model_max_length)
     ∧ (log ≠ [] ↔ model_max_length < block_size))
  ∧ (choose_block_size None model_max_length).1 = 1024
  ∧ (model_max_length < 1024 →
     model_max_length < (choose_block_size None model_max_length).1
     ∧ (choose_block_size None model_max_length).2 = [])
  ∧ ((choose_block_size None model_max_length).2 ≠ []
     ↔ 1024 < model_max_length).
Proof.
  split_and!.
  - intros block_size. unfold choose_block_size.
    rewrite Z.gtb_ltb.
    destruct (model_max_length <? block_size) eqn:Hlt.
    + apply Z.ltb_lt in Hlt. split_and!; [lia..|]. split; [done|done].
    + apply Z.ltb_ge in Hlt. split_and!; [lia..|]. split; [done|lia].
  - done.
  - intros Hsmall. simpl. split; [lia|].
    rewrite Z.gtb_ltb, (proj2 (Z.ltb_ge _ _)) by lia. done.
  - simpl. rewrite Z.gtb_ltb.
    destruct (1024 <? model_max_length) eqn:Hlt.
    + apply Z.ltb_lt in Hlt. done.
    + apply Z.ltb_ge in Hlt. split; [done|lia].
Qed.

(** ** [get_datasets] *)

Lemma str_split_nonempty sep s : str_split sep s ≠ [].
Proof.
  destruct s as [|c s]; simpl; [done|].
  destruct (decide (c = sep)); [done|]. by destruct (str_split sep s).
Qed.

Lemma str_split_no_sep sep s : occurs sep s = false → str_split sep s = [s].
Proof.
  induction s as [|c s IH]; simpl; [done|].
  destruct (decide (c = sep)); [done|]. intros Hs. by rewrite IH.
Qed.

(** Splitting at a separator: the last piece is the last piece of what
    follows any occurrence of the separator. *)
Lemma str_split_after sep stem ext :
  ∃ h pieces,
    str_split sep (stem +:+ String sep ext) = h :: pieces
    ∧ pieces ≠ [] ∧ last pieces = last (str_split sep ext).
Proof.
  induction stem as [|c stem IH]; simpl.
  - rewrite decide_True by done.
    exists EmptyString, (str_split sep ext).
    split_and!; [done|apply str_split_nonempty|done].
  - destruct IH as (h & pieces & -> & Ht & Hlast).
    destruct (decide (c = sep)).
    + exists EmptyString, (h :: pieces). split_and!; [done|done|].
      destruct pieces; [done|]. done.
    + exists (String c h), pieces. done.
Qed.

Lemma str_split_extension sep stem ext :
  occurs sep ext = false →
  last (str_split sep (stem +:+ String sep ext)) = Some ext.
Proof.
  intros Hext. destruct (str_split_after sep stem ext) as (h & pieces & -> & Ht & Hl).
  rewrite str_split_no_sep in Hl by done.
  destruct pieces; [done|]. exact Hl.
Qed.

Section GetDatasetsProofs.
Context {DS Pct : Type}.
Context (render : Pct → string).
Context (load_splits : @LoadCall → Dict DS) (load_split : @LoadCall → DS).

Lemma add_validation_split_spec (raw : Dict DS) call p :
  let '(d, calls) :=
    add_validation_split render load_split raw call p in
  "validation" ∈ dict_keys d
  ∧ (("validation" ∈ dict_keys raw ∧ d = raw ∧ calls = [])
     ∨ (("validation" ∉ dict_keys raw)
        ∧ ∃ head tail,
            calls = [head; tail]
            ∧ split head = Some ("train[:" +:+ (render p +:+ "%]"))
            ∧ split tail = Some ("train[" +:+ (render p +:+ "%:]"))
            ∧ path head = path call ∧ path tail = path call
            ∧ data_files head = data_files call
            ∧ data_files tail = data_files call
            ∧ dict_get d "validation" = Return (load_split head)
            ∧ dict_get d "train" = Return (load_split tail)
            ∧ ∀ k, k ≠ "validation" → k ≠ "train" →
                dict_get d k = dict_get raw k)).
Proof.
  unfold add_validation_split.
  destruct (decide ("validation" ∈ dict_keys raw)) as [Hin|Hnotin].
  - split; [done|]. by left.
  - split.
    + rewrite !dict_keys_set.
      repeat (destruct (decide _)); set_solver.
    + right. split; [done|]. eexists _, _.
      split_and!; [done..| | |].
      * rewrite !dict_get_set. by rewrite decide_False, decide_True.
      * rewrite !dict_get_set. by rewrite decide_True.
      * intros k Hk1 Hk2. rewrite !dict_get_set.
        by rewrite !decide_False by done.
Qed.

(** X19. [get_datasets] raises [ValueError], without loading anything,
    exactly when neither [dataset_name] nor [train_file] is given; in
    every other case it returns and has called [load_dataset] first
    without a split. When [dataset_name] is given, the files and
    [keep_linebreaks] are ignored. *)
Theorem X19_get_datasets_needs_a_source
    dataset_name config p train_file validation_file keep_linebreaks :
  let run :=
    get_datasets render load_splits load_split dataset_name config p
      train_file validation_file keep_linebreaks in
  (dataset_name = None → train_file = None → run = (Raises ValueError, []))
  ∧ (run.1 = Raises ValueError → dataset_name = None ∧ train_file = None)
  ∧ (is_Some dataset_name ∨ is_Some train_file →
     ∃ d call calls,
       run = (Return d, call :: calls) ∧ split call = None)
  ∧ (is_Some dataset_name →
     run = get_datasets render load_splits load_split dataset_name config p
             None None false).
Proof.
  intros run. subst run. unfold get_datasets. split_and!.
  - by intros -> ->.
  - destruct dataset_name as [n|].
    { by destruct (add_validation_split _ _ _ _ _). }
    destruct train_file as [tf|]; [|done].
    destruct (decide _); by destruct (add_validation_split _ _ _ _ _).
  - intros [[n ->]|[tf ->]].
    + destruct (add_validation_split _ _ _ _ _) as [d calls] eqn:Hadd.
      by eexists _, _, _.
    + destruct dataset_name as [n|].
      * destruct (add_validation_split _ _ _ _ _) as [d calls] eqn:Hadd.
        by eexists _, _, _.
      * destruct (decide _);
          destruct (add_validation_split _ _ _ _ _) as [d calls] eqn:Hadd;
          by eexists _, _, _.
  - by intros [n ->].
Qed.

(** X20. Whatever [get_datasets] returns has a ["validation"] split. When
    the dict loaded first has one, that dict is returned as it is and
    nothing else is loaded. When it has none, two more loads follow, of
    the splits [train[:p%]] and [train[p%:]] in this order, from the same
    path and files: the first becomes ["validation"], the second replaces
    ["train"], and the other splits stay. *)
Theorem X20_get_datasets_result_has_validation
    dataset_name config p train_file validation_file keep_linebreaks d calls :
  get_datasets render load_splits load_split dataset_name config p
    train_file validation_file keep_linebreaks = (Return d, calls) →
  "validation" ∈ dict_keys d
  ∧ ∃ call rest,
      calls = call :: rest ∧ split call = None
      ∧ (("validation" ∈ dict_keys (load_splits call)
          ∧ d = load_splits call ∧ rest = [])
         ∨ (("validation" ∉ dict_keys (load_splits call))
            ∧ ∃ head tail,
                rest = [head; tail]
                ∧ split head = Some ("train[:" +:+ (render p +:+ "%]"))
                ∧ split tail = Some ("train[" +:+ (render p +:+ "%:]"))
                ∧ path head = path call ∧ path tail = path call
                ∧ data_files head = data_files call
                ∧ data_files tail = data_files call
                ∧ dict_get d "validation" = Return (load_split head)
                ∧ dict_get d "train" = Return (load_split tail)
                ∧ ∀ k, k ≠ "validation" → k ≠ "train" →
                    dict_get d k = dict_get (load_splits call) k)).
Proof.
  unfold get_datasets. intros Hrun.
  assert (Hgen : ∀ call,
            (let '(raw, cs) :=
               add_validation_split render load_split (load_splits call)
                 call p in
             (Return raw, call :: cs)) = (Return d, calls) →
            split call = None →
            "validation" ∈ dict_keys d
            ∧ ∃ call rest,
                calls = call :: rest ∧ split call = None
                ∧ (("validation" ∈ dict_keys (load_splits call)
                    ∧ d = load_splits call ∧ rest = [])
                   ∨ (("validation" ∉ dict_keys (load_splits call))
                      ∧ ∃ head tail,
                          rest = [head; tail]
                          ∧ split head
                            = Some ("train[:" +:+ (render p +:+ "%]"))
                          ∧ split tail
                            = Some ("train[" +:+ (render p +:+ "%:]"))
                          ∧ path head = path call ∧ path tail = path call
                          ∧ data_files head = data_files call
                          ∧ data_files tail = data_files call
                          ∧ dict_get d "validation" = Return (load_split head)
                          ∧ dict_get d "train" = Return (load_split tail)
                          ∧ ∀ k, k ≠ "validation" → k ≠ "train" →
                              dict_get d k = dict_get (load_splits call) k))).
  { intros call Hcall Hsplit.
    pose proof (add_validation_split_spec (load_splits call) call p) as Hspec.
    destruct (add_validation_split _ _ _ _ _) as [raw cs].
    injection Hcall as <- <-. destruct Hspec as [Hval Hcases].
    split; [done|]. exists call, cs. done. }
  destruct dataset_name as [n|].
  { by apply (Hgen _ Hrun). }
  destruct train_file as [tf|]; [|done].
  destruct (decide _); by apply (Hgen _ Hrun).
Qed.

(** X21. Without a [dataset_name], the loader is named by what follows
    the last ['.'] of [train_file], [keep_linebreaks] is passed on only
    for a [txt] file, which is loaded by the [text] loader, and the files
    passed are the training file and, when there is one, the validation
    file. *)
Theorem X21_get_datasets_loader_from_extension
    config p stem ext validation_file keep_linebreaks :
  occurs dot ext = false →
  ∃ d call calls,
    get_datasets render load_splits load_split None config p
      (Some (stem +:+ String dot ext)) validation_file keep_linebreaks
    = (Return d, call :: calls)
    ∧ path call = (if decide (ext = "txt") then "text" else ext)
    ∧ keep_linebreaks_arg call
      = (if decide (ext = "txt") then Some keep_linebreaks else None)
    ∧ name call = None
    ∧ data_files call
      = Some (("train", stem +:+ String dot ext)
              :: match validation_file with
                 | Some f => [("validation", f)]
                 | None => []
                 end).
Proof.
  intros Hext. unfold get_datasets.
  rewrite str_split_extension by done. simpl default.
  destruct (decide (ext = "txt")) as [->|Hne];
    destruct (add_validation_split _ _ _ _ _) as [d calls] eqn:Hadd;
    eexists _, _, _; (split; [reflexivity|]); simpl;
    by destruct validation_file.
Qed.

End GetDatasetsProofs.

End GptDataProofs.

(** * The properties on the concrete batches and loaders *)

Section GptDataChecks.
Import GptData GptExamples.

Lemma ex_batch_grouped : group_texts ex_batch 4 = Return ex_grouped.
Proof. vm_compute. reflexivity. Defined.



(** X15 on [ex_batch] with blocks of 4. *)
Lemma X15_group_texts_witness :
  dict_keys ex_grouped = ["input_ids"; "attention_mask"; "labels"].
Proof.
  destruct (X15_group_texts_labels_copy_input_ids ex_batch 4 ex_grouped)
    as [_ Hkeys].
  - exact ex_batch_grouped.
  - rewrite Hkeys. vm_compute. reflexivity.
Defined.

(** X16 on the empty batch, on a zero block size and on a batch without
    ["input_ids"]. *)
Lemma X16_group_texts_witness :
  group_texts (@nil (string * list (list Z))) 4 = Raises StopIteration
  ∧ group_texts ex_batch 0 = Raises ZeroDivisionError
  ∧ group_texts [("tokens", [[1; 2; 3]])] 2 = Raises KeyError.
Proof.
  split_and!.
  - by apply (X16_group_texts_errors (@nil (string * list (list Z))) 4).
  - by apply (X16_group_texts_errors ex_batch 0).
  - apply (X16_group_texts_errors [("tokens", [[1; 2; 3]])] 2); [done|lia|].
    vm_compute. intros H. inversion H as [|? ? ? H']. inversion H'.
Defined.

(** X17 on [ex_batch] with blocks of 10: nine tokens are too few. *)
Lemma X17_group_texts_witness :
  ∃ result,
    group_texts ex_batch 10 = Return result
    ∧ result ≠ []
    ∧ dict_get result "labels" = Return [].
Proof.
  destruct (X17_group_texts_short_batch_keeps_empty_columns
              "input_ids" [[1; 2; 3]; [4; 5]; [6; 7; 8; 9]]
              [("attention_mask", [[1; 1; 1]; [1; 1]; [1; 1; 1; 1]])] 10)
    as (result & Hrun & Hne & _ & Hlabels).
  - lia.
  - right. simpl. lia.
  - apply list_elem_of_here.
  - by exists result.
Defined.

(** X18 for a tokenizer limited to 512 tokens. *)
Lemma X18_choose_block_size_witness :
  (choose_block_size None 512).1 = 1024
  ∧ (choose_block_size (Some 2048) 512).1 ≤ 512.
Proof.
  destruct (X18_choose_block_size_bounds 512) as (Hsome & Hnone & _).
  split; [exact Hnone|].
  specialize (Hsome 2048).
  destruct (choose_block_size (Some 2048) 512) as [b log].
  by destruct Hsome as [? _].
Defined.

(** X19 without any source and with a file. *)
Lemma X19_get_datasets_witness :
  get_datasets id ex_load_splits ex_load_split None None "5" None None true
  = (Raises ValueError, [])
  ∧ ∃ d call calls,
      get_datasets id ex_load_splits ex_load_split None None "5"
        (Some "wiki.txt") None true
      = (Return d, call :: calls) ∧ split call = None.
Proof.
  destruct (X19_get_datasets_needs_a_source id ex_load_splits ex_load_split
              None None "5" None None true) as (Hnone & _).
  destruct (X19_get_datasets_needs_a_source id ex_load_splits ex_load_split
              None None "5" (Some "wiki.txt") None true) as (_ & _ & Hsome & _).
  split; [by apply Hnone|]. apply Hsome. right. by eexists.
Defined.

(** X20 on a file whose loader returns a ["train"] split only. *)
Lemma X20_get_datasets_witness :
  ∃ d calls,
    get_datasets id ex_load_splits ex_load_split None None "5"
      (Some "wiki.txt") None true = (Return d, calls)
    ∧ "validation" ∈ dict_keys d
    ∧ length calls = 3%nat.
Proof.
  destruct (get_datasets id ex_load_splits ex_load_split None None "5"
              (Some "wiki.txt") None true) as [[d|e] calls] eqn:Hrun;
    [|by vm_compute in Hrun].
  destruct (X20_get_datasets_result_has_validation id ex_load_splits
              ex_load_split None None "5" (Some "wiki.txt") None true d calls
              Hrun) as [Hval _].
  exists d, calls. split_and!; [reflexivity|exact Hval|].
  vm_compute in Hrun. injection Hrun as _ <-. reflexivity.
Defined.

(** X21 on [wiki.en.txt] and on [wiki.json]. *)
Lemma X21_get_datasets_witness :
  (∃ d call calls,
     get_datasets id ex_load_splits ex_load_split None None "5"
       (Some "wiki.en.txt") None true = (Return d, call :: calls)
     ∧ path call = "text" ∧ keep_linebreaks_arg call = Some true)
  ∧ (∃ d call calls,
       get_datasets id ex_load_splits ex_load_split None None "5"
         (Some "wiki.json") None true = (Return d, call :: calls)
       ∧ path call = "json" ∧ keep_linebreaks_arg call = None).
Proof.
  split.
  - destruct (X21_get_datasets_loader_from_extension id ex_load_splits
                ex_load_split None "5" "wiki.en" "txt" None true)
      as (d & call & calls & Hrun & Hpath & Hkeep & _); [reflexivity|].
    exists d, call, calls. split_and!; [exact Hrun|exact Hpath|exact Hkeep].
  - destruct (X21_get_datasets_loader_from_extension id ex_load_splits
                ex_load_split None "5" "wiki" "json" None true)
      as (d & call & calls & Hrun & Hpath & Hkeep & _); [reflexivity|].
    exists d, call, calls. split_and!; [exact Hrun|exact Hpath|exact Hkeep].
Defined.

End GptDataChecks.
